(** * geo: a generic framework for geocode / reverse geocode clients

    A shallow embedding of [geocoder.go] and the properties of its
    public operations [Geocode] and [ReverseGeocode].

    - Go strings are byte sequences: [string] (a list of [ascii] bytes).
    - [float64] is the kernel's binary64 type [float]; [==] is [PrimFloat.eqb].
    - The provider side (the two interfaces) is a pair of records of
      functions over an explicit store, so that aliasing between the
      facade's parser and the decode target is visible.
    - The goroutine, the channel and the [select] are a small labelled
      transition system; a schedule is a list of labels and [run]
      executes it. *)

From Stdlib Require Import ZArith Lia Bool List String Ascii Floats.
Import ListNotations.
Open Scope string_scope.
Set Warnings "-inexact-float".

(** ** Errors *)

(** Go's [error] values that occur in the package: the two sentinels
    declared by the package, and the errors made by the libraries it calls
    (net/http, io/ioutil, encoding/json), kept with their message. *)
Inductive error : Type :=
| TimeoutError                 (* errors.New("TIMEOUT") *)
| NoResultError                (* errors.New("NO_RESULT") *)
| LibError (msg : string).

(** [time.Duration] counts nanoseconds. *)
Definition Second : Z := 1000000000.
Definition timeoutInSeconds : Z := Second * 8.

(** ** Location *)

Record Location : Type := mkLocation { Lat : float; Lng : float }.

(** [Location{}] *)
Definition zeroLocation : Location := mkLocation 0%float 0%float.

(** ** Library functions used by the package *)

(** *** strings.Trim, for a cutset of ASCII bytes *)

(** [asciiSet.contains]: membership of a byte in the cutset. *)
Fixpoint contains (cutset : string) (c : ascii) : bool :=
  match cutset with
  | EmptyString => false
  | String d cutset' => Ascii.eqb c d || contains cutset' c
  end.

(** [trimLeftASCII]: drop bytes from the front while they are in the cutset. *)
Fixpoint trimLeftASCII (s cutset : string) : string :=
  match s with
  | EmptyString => EmptyString
  | String c s' => if contains cutset c then trimLeftASCII s' cutset else s
  end.

(** [trimRightASCII]: drop bytes from the back while they are in the cutset. *)
Fixpoint trimRightASCII (s cutset : string) : string :=
  match s with
  | EmptyString => EmptyString
  | String c s' =>
      match trimRightASCII s' cutset with
      | EmptyString => if contains cutset c then EmptyString else String c EmptyString
      | r => String c r
      end
  end.

Definition is_empty (s : string) : bool :=
  match s with EmptyString => true | String _ _ => false end.

(** [strings.Trim(s, cutset)] on its path for ASCII cutsets (the package
    calls it with the constant cutset [" []"]). *)
Definition Trim (s cutset : string) : string :=
  if is_empty s || is_empty cutset then s
  else trimLeftASCII (trimRightASCII s cutset) cutset.

(** *** url.QueryEscape *)

Definition upperhex : string := "0123456789ABCDEF".

Definition hexdigit (n : nat) : ascii :=
  match String.get n upperhex with Some c => c | None => "0"%char end.

Definition between (lo hi n : nat) : bool := (lo <=? n)%nat && (n <=? hi)%nat.

(** [shouldEscape(c, encodeQueryComponent)]: everything is escaped but the
    unreserved characters: letters, digits, and [-], [_], [.], [~]. *)
Definition shouldEscape (c : ascii) : bool :=
  let n := nat_of_ascii c in
  if between 97 122 n || between 65 90 n || between 48 57 n then false
  else if Ascii.eqb c "-" || Ascii.eqb c "_" || Ascii.eqb c "." || Ascii.eqb c "~"
       then false
       else true.

(** [escape(s, encodeQueryComponent)]: a space becomes [+], any other escaped
    byte becomes [%XX] in upper-case hexadecimal. *)
Fixpoint escape (s : string) : string :=
  match s with
  | EmptyString => EmptyString
  | String c s' =>
      if Ascii.eqb c " " then String "+" (escape s')
      else if shouldEscape c then
             String "%" (String (hexdigit (nat_of_ascii c / 16))
                           (String (hexdigit (nat_of_ascii c mod 16)) (escape s')))
           else String c (escape s')
  end.

Definition QueryEscape (s : string) : string := escape s.

(** *** encoding/json: the well-formedness check of Unmarshal *)

Module json.

(** The scanner's parse states: what the innermost open object or array is
    waiting for. *)
Inductive parse : Type :=
| parseObjectKey      (* parsing object key (before colon) *)
| parseObjectValue    (* parsing object value (after colon) *)
| parseArrayValue.    (* parsing array value *)

(** The scanner's step functions, by name. *)
Inductive state : Type :=
| stateBeginValueOrEmpty | stateBeginValue
| stateBeginStringOrEmpty | stateBeginString
| stateEndValue | stateEndTop
| stateInString | stateInStringEsc
| stateInStringEscU | stateInStringEscU1 | stateInStringEscU12 | stateInStringEscU123
| stateNeg | state1 | state0 | stateDot | stateDot0 | stateE | stateESign | stateE0
| stateT | stateTr | stateTru
| stateF | stateFa | stateFal | stateFals
| stateN | stateNu | stateNul
| stateError.

(** The scanner: its step, the flag set when the top-level value has ended,
    and the stack of parse states, innermost first. An error is the step
    [stateError]. *)
Record scanner : Type := mkScanner {
  step : state;
  endTop : bool;
  parseState : list parse
}.

Definition maxNestingDepth : Z := 10000.

Definition reset : scanner := mkScanner stateBeginValue false [].

Definition to (st : state) (s : scanner) : scanner :=
  mkScanner st (endTop s) (parseState s).

Definition error (s : scanner) : scanner := to stateError s.

Definition isByte (c : ascii) (d : string) : bool :=
  match d with
  | String x EmptyString => Ascii.eqb c x
  | _ => false
  end.

Definition quote : ascii := ascii_of_nat 34.
Definition backslash : ascii := ascii_of_nat 92.

Definition isSpace (c : ascii) : bool :=
  isByte c " " || Ascii.eqb c (ascii_of_nat 9) || Ascii.eqb c (ascii_of_nat 13)
  || Ascii.eqb c (ascii_of_nat 10).

Definition isDigit (c : ascii) : bool := between 48 57 (nat_of_ascii c).

Definition isHex (c : ascii) : bool :=
  between 48 57 (nat_of_ascii c) || between 97 102 (nat_of_ascii c)
  || between 65 70 (nat_of_ascii c).

(** [pushParseState], the step being set to [st] before it. *)
Definition pushParseState (s : scanner) (p : parse) (st : state) : scanner :=
  let stack := p :: parseState s in
  if (Z.of_nat (List.length stack) <=? maxNestingDepth)%Z
  then mkScanner st (endTop s) stack
  else mkScanner stateError (endTop s) stack.

(** [popParseState]; it is called on a stack that is not empty. *)
Definition popParseState (s : scanner) : scanner :=
  match parseState s with
  | [] => error s
  | _ :: [] => mkScanner stateEndTop true []
  | _ :: rest => mkScanner stateEndValue (endTop s) rest
  end.

Definition doEndTop (s : scanner) (c : ascii) : scanner :=
  if isSpace c then s else error s.

Definition doEndValue (s : scanner) (c : ascii) : scanner :=
  match parseState s with
  | [] => doEndTop (mkScanner stateEndTop true []) c
  | ps :: rest =>
      if isSpace c then to stateEndValue s
      else match ps with
           | parseObjectKey =>
               if isByte c ":" then mkScanner stateBeginValue (endTop s) (parseObjectValue :: rest)
               else error s
           | parseObjectValue =>
               if isByte c "," then mkScanner stateBeginString (endTop s) (parseObjectKey :: rest)
               else if isByte c "}" then popParseState s
               else error s
           | parseArrayValue =>
               if isByte c "," then to stateBeginValue s
               else if isByte c "]" then popParseState s
               else error s
           end
  end.

Definition doBeginValue (s : scanner) (c : ascii) : scanner :=
  if isSpace c then s
  else if isByte c "{" then pushParseState s parseObjectKey stateBeginStringOrEmpty
  else if isByte c "[" then pushParseState s parseArrayValue stateBeginValueOrEmpty
  else if Ascii.eqb c quote then to stateInString s
  else if isByte c "-" then to stateNeg s
  else if isByte c "0" then to state0 s
  else if isByte c "t" then to stateT s
  else if isByte c "f" then to stateF s
  else if isByte c "n" then to stateN s
  else if between 49 57 (nat_of_ascii c) then to state1 s
  else error s.

Definition doBeginValueOrEmpty (s : scanner) (c : ascii) : scanner :=
  if isSpace c then s
  else if isByte c "]" then doEndValue s c
  else doBeginValue s c.

Definition doBeginString (s : scanner) (c : ascii) : scanner :=
  if isSpace c then s
  else if Ascii.eqb c quote then to stateInString s
  else error s.

Definition doBeginStringOrEmpty (s : scanner) (c : ascii) : scanner :=
  if isSpace c then s
  else if isByte c "}" then
         match parseState s with
         | [] => error s
         | _ :: rest => doEndValue (mkScanner (step s) (endTop s) (parseObjectValue :: rest)) c
         end
  else doBeginString s c.

Definition doInString (s : scanner) (c : ascii) : scanner :=
  if Ascii.eqb c quote then to stateEndValue s
  else if Ascii.eqb c backslash then to stateInStringEsc s
  else if (nat_of_ascii c <? 32)%nat then error s
  else s.

Definition doInStringEsc (s : scanner) (c : ascii) : scanner :=
  if isByte c "b" || isByte c "f" || isByte c "n" || isByte c "r" || isByte c "t"
     || Ascii.eqb c backslash || isByte c "/" || Ascii.eqb c quote
  then to stateInString s
  else if isByte c "u" then to stateInStringEscU s
  else error s.

Definition doHex (next : state) (s : scanner) (c : ascii) : scanner :=
  if isHex c then to next s else error s.

Definition doNeg (s : scanner) (c : ascii) : scanner :=
  if isByte c "0" then to state0 s
  else if between 49 57 (nat_of_ascii c) then to state1 s
  else error s.

Definition do0 (s : scanner) (c : ascii) : scanner :=
  if isByte c "." then to stateDot s
  else if isByte c "e" || isByte c "E" then to stateE s
  else doEndValue s c.

Definition do1 (s : scanner) (c : ascii) : scanner :=
  if isDigit c then to state1 s else do0 s c.

Definition doDot (s : scanner) (c : ascii) : scanner :=
  if isDigit c then to stateDot0 s else error s.

Definition doDot0 (s : scanner) (c : ascii) : scanner :=
  if isDigit c then s
  else if isByte c "e" || isByte c "E" then to stateE s
  else doEndValue s c.

Definition doESign (s : scanner) (c : ascii) : scanner :=
  if isDigit c then to stateE0 s else error s.

Definition doE (s : scanner) (c : ascii) : scanner :=
  if isByte c "+" || isByte c "-" then to stateESign s else doESign s c.

Definition doE0 (s : scanner) (c : ascii) : scanner :=
  if isDigit c then s else doEndValue s c.

(** One letter of [true], [false] or [null]. *)
Definition doLetter (l : string) (next : state) (s : scanner) (c : ascii) : scanner :=
  if isByte c l then to next s else error s.

(** [s.step(s, c)] *)
Definition scan_byte (s : scanner) (c : ascii) : scanner :=
  match step s with
  | stateBeginValueOrEmpty => doBeginValueOrEmpty s c
  | stateBeginValue => doBeginValue s c
  | stateBeginStringOrEmpty => doBeginStringOrEmpty s c
  | stateBeginString => doBeginString s c
  | stateEndValue => doEndValue s c
  | stateEndTop => doEndTop s c
  | stateInString => doInString s c
  | stateInStringEsc => doInStringEsc s c
  | stateInStringEscU => doHex stateInStringEscU1 s c
  | stateInStringEscU1 => doHex stateInStringEscU12 s c
  | stateInStringEscU12 => doHex stateInStringEscU123 s c
  | stateInStringEscU123 => doHex stateInString s c
  | stateNeg => doNeg s c
  | state1 => do1 s c
  | state0 => do0 s c
  | stateDot => doDot s c
  | stateDot0 => doDot0 s c
  | stateE => doE s c
  | stateESign => doESign s c
  | stateE0 => doE0 s c
  | stateT => doLetter "r" stateTr s c
  | stateTr => doLetter "u" stateTru s c
  | stateTru => doLetter "e" stateEndValue s c
  | stateF => doLetter "a" stateFa s c
  | stateFa => doLetter "l" stateFal s c
  | stateFal => doLetter "s" stateFals s c
  | stateFals => doLetter "e" stateEndValue s c
  | stateN => doLetter "u" stateNu s c
  | stateNu => doLetter "l" stateNul s c
  | stateNul => doLetter "l" stateEndValue s c
  | stateError => s
  end.

(** The scanner after the bytes of [data]. *)
Fixpoint scan (s : scanner) (data : string) : scanner :=
  match data with
  | EmptyString => s
  | String c data' => scan (scan_byte s c) data'
  end.

(** [eof]: the input has ended; [true] when it ended a top-level value. *)
Definition eof (s : scanner) : bool :=
  match step s with
  | stateError => false
  | _ => if endTop s then true else endTop (scan_byte s " ")
  end.

(** [checkValid(data, scan)]: [true] for no error. *)
Definition checkValid (data : string) : bool := eof (scan reset data).

End json.

(** ** The result classifier *)

(** The dynamic type of an [interface{}] value, as far as [anyError]'s type
    switch tells them apart. *)
Inductive any : Type :=
| ALocation (v : Location)
| AString (v : string)
| AOther.

Definition anyError (v : any) : option error :=
  match v with
  | ALocation v =>
      if PrimFloat.eqb (Lat v) 0%float && PrimFloat.eqb (Lng v) 0%float
      then Some NoResultError else None
  | AString v =>
      if String.eqb v "" then Some NoResultError else None
  | AOther => None
  end.

(** ** The two capabilities and the facade *)

(** [EndpointBuilder]: builds the request URLs. *)
Record EndpointBuilder : Type := {
  GeocodeUrl : string -> string;
  ReverseGeocodeUrl : Location -> string
}.

(** [ResponseParser]: the interface, as the methods of a provider's parser
    objects. A parser object lives in a store of type [Store] and is known
    by a handle of type [Obj] (the pointer an interface value holds):
    [Location()] and [Address()] read the object behind the receiver,
    [ResponseObject()] returns a handle, the receiver's own or another one,
    and may change the store. [d_unmarshal] is what the decoding of
    [json.Unmarshal] does with well-formed data for the provider's type
    ([decodeState.unmarshal]): it writes through the handle and reports an
    error or none. *)
Record ResponseParser (Store Obj : Type) : Type := {
  Location_of : Obj -> Store -> Location;
  Address_of : Obj -> Store -> string;
  ResponseObject : Obj -> Store -> Obj * Store;
  d_unmarshal : string -> Obj -> Store -> Store * option error
}.
Arguments Location_of {Store Obj} _ _ _.
Arguments Address_of {Store Obj} _ _ _.
Arguments ResponseObject {Store Obj} _ _ _.
Arguments d_unmarshal {Store Obj} _ _ _ _.

(** [json.Unmarshal(data, obj)]: the data is checked for well-formedness
    first, and a syntax error is returned before anything is written. *)
Definition Unmarshal {Store Obj : Type} (impl : ResponseParser Store Obj)
  (data : string) (obj : Obj) (st : Store) : Store * option error :=
  if json.checkValid data then d_unmarshal impl data obj st
  else (st, Some (LibError "json: syntax error")).

(** [Geocoder]: the two embedded interface values. *)
Record Geocoder (Obj : Type) : Type := {
  g_EndpointBuilder : EndpointBuilder;
  g_ResponseParser : Obj
}.
Arguments g_EndpointBuilder {Obj} _.
Arguments g_ResponseParser {Obj} _.

(** ** The network, as the package sees it *)

Inductive result (A : Type) : Type :=
| Ok (a : A)
| Err (e : error).
Arguments Ok {A} _.
Arguments Err {A} _.

Record Request : Type := { Method : string; URL : string }.

(** A response: its status code and what reading its body to the end gives,
    the bytes read and the read error if any; [None] when the read never
    ends. *)
Record Response : Type := {
  StatusCode : Z;
  Body : option (string * option error)
}.

(** [NewRequest] is [http.NewRequest(method, url, nil)]; [Do] is
    [(&http.Client{}).Do(req)], [None] when the call never returns (the
    client has no timeout of its own). *)
Record Net : Type := {
  NewRequest : string -> string -> result Request;
  Do : Request -> option (result Response)
}.

(** [ioutil.ReadAll(resp.Body)] *)
Definition ReadAll (resp : Response) : option (string * option error) := Body resp.

(** ** The package's functions *)

(** What differs between the bodies of [Geocode] and [ReverseGeocode]:
    the first argument of [response], the method read after it, the value
    returned on timeout, the dynamic type [anyError] sees, the argument
    of [time.After]. *)
Record call (Store Obj T : Type) : Type := {
  call_url : string;
  call_target : Store -> Obj * Store;   (* g.ResponseObject() *)
  call_read : Store -> T;               (* g.Location() or g.Address() *)
  call_zero : T;
  call_any : T -> any;
  call_timeout : Z
}.
Arguments call_url {Store Obj T} _.
Arguments call_target {Store Obj T} _ _.
Arguments call_read {Store Obj T} _ _.
Arguments call_zero {Store Obj T} _.
Arguments call_any {Store Obj T} _ _.
Arguments call_timeout {Store Obj T} _.

(** Where the goroutine stands:
    - [GoStart]: created by the [go] statement;
    - [GoCalling url obj]: the arguments of [response] are evaluated
      (the URL, then [g.ResponseObject()]), the call is under way;
    - [GoReturned]: [response] has returned;
    - [GoSending v]: [v] is read from [g], the goroutine waits at
      [ch <- v] for a receiver ([ch] has no buffer);
    - [GoExit]: the send went through, the goroutine is over. *)
Inductive goroutine (Obj T : Type) : Type :=
| GoStart
| GoCalling (url : string) (obj : Obj)
| GoReturned
| GoSending (v : T)
| GoExit.
Arguments GoStart {Obj T}.
Arguments GoCalling {Obj T} _ _.
Arguments GoReturned {Obj T}.
Arguments GoSending {Obj T} _.
Arguments GoExit {Obj T}.

(** Where the caller stands: waiting in the [select], or returned. *)
Inductive caller (T : Type) : Type :=
| Selecting
| Returned (v : T) (err : option error).
Arguments Selecting {T}.
Arguments Returned {T} _ _.

(** [clock]: nanoseconds since the caller evaluated [time.After]. *)
Record config (Store Obj T : Type) : Type := mkConfig {
  store : Store;
  worker : goroutine Obj T;
  main : caller T;
  clock : Z
}.
Arguments mkConfig {Store Obj T} _ _ _ _.
Arguments store {Store Obj T} _.
Arguments worker {Store Obj T} _.
Arguments main {Store Obj T} _.
Arguments clock {Store Obj T} _.

Inductive label : Type :=
| Tick (dt : Z)   (* time passes *)
| Args            (* the goroutine evaluates the arguments of response *)
| Fetch           (* response returns *)
| Read            (* the goroutine reads the value to send *)
| Deliver         (* the send meets the receive of the first select case *)
| Expire.         (* the timer's channel delivers to the second select case *)

(** The state after the [go] statement, as the caller enters the select. *)
Definition init {Store Obj T : Type} (st : Store) : config Store Obj T :=
  mkConfig st GoStart Selecting 0.

(** What the caller got, once it has returned. *)
Definition outcome {Store Obj T : Type} (s : config Store Obj T)
  : option (T * option error) :=
  match main s with
  | Selecting => None
  | Returned v err => Some (v, err)
  end.

Section Geo.

Context {Store Obj : Type}.

(** The provider's parser methods and the network of one call. *)
Variable impl : ResponseParser Store Obj.
Variable net : Net.

(** [response(url, obj)]: the store it leaves, [None] when it never
    returns. It has no result; every [err] it meets ends it quietly, and
    the error of [json.Unmarshal] is dropped. The status code is not
    looked at. *)
Definition response (url : string) (obj : Obj) (st : Store) : option Store :=
  match NewRequest net "GET" url with
  | Ok req =>
      match Do net req with
      | None => None
      | Some (Ok resp) =>
          match ReadAll resp with
          | None => None
          | Some (data, None) => Some (fst (Unmarshal impl (Trim data " []") obj st))
          | Some (_, Some _) => Some st
          end
      | Some (Err _) => Some st
      end
  | Err _ => Some st
  end.

Definition Geocode (g : Geocoder Obj) (address : string)
  : call Store Obj Location := {|
  call_url := GeocodeUrl (g_EndpointBuilder g) (QueryEscape address);
  call_target := ResponseObject impl (g_ResponseParser g);
  call_read := Location_of impl (g_ResponseParser g);
  call_zero := zeroLocation;
  call_any := ALocation;
  call_timeout := timeoutInSeconds
|}.

Definition ReverseGeocode (g : Geocoder Obj) (lat lng : float)
  : call Store Obj string := {|
  call_url := ReverseGeocodeUrl (g_EndpointBuilder g) (mkLocation lat lng);
  call_target := ResponseObject impl (g_ResponseParser g);
  call_read := Address_of impl (g_ResponseParser g);
  call_zero := EmptyString;
  call_any := AString;
  call_timeout := timeoutInSeconds
|}.

(** *** The goroutine, the channel and the select *)

Definition step {T : Type} (c : call Store Obj T) (l : label)
  (s : config Store Obj T) : option (config Store Obj T) :=
  match l with
  | Tick dt =>
      if (0 <? dt)%Z then Some (mkConfig (store s) (worker s) (main s) (clock s + dt))
      else None
  | Args =>
      match worker s with
      | GoStart =>
          let url := call_url c in
          let (obj, st) := call_target c (store s) in
          Some (mkConfig st (GoCalling url obj) (main s) (clock s))
      | _ => None
      end
  | Fetch =>
      match worker s with
      | GoCalling url obj =>
          match response url obj (store s) with
          | Some st => Some (mkConfig st GoReturned (main s) (clock s))
          | None => None
          end
      | _ => None
      end
  | Read =>
      match worker s with
      | GoReturned =>
          Some (mkConfig (store s) (GoSending (call_read c (store s))) (main s) (clock s))
      | _ => None
      end
  | Deliver =>
      match worker s, main s with
      | GoSending v, Selecting =>
          Some (mkConfig (store s) GoExit (Returned v (anyError (call_any c v))) (clock s))
      | _, _ => None
      end
  | Expire =>
      match main s with
      | Selecting =>
          if (call_timeout c <=? clock s)%Z
          then Some (mkConfig (store s) (worker s)
                       (Returned (call_zero c) (Some TimeoutError)) (clock s))
          else None
      | Returned _ _ => None
      end
  end.

(** Running a schedule: [None] when one of its steps cannot be taken. *)
Fixpoint run {T : Type} (c : call Store Obj T) (ls : list label)
  (s : config Store Obj T) : option (config Store Obj T) :=
  match ls with
  | [] => Some s
  | l :: ls' =>
      match step c l s with
      | Some s' => run c ls' s'
      | None => None
      end
  end.

End Geo.

Arguments response {Store Obj} impl net url obj st.
Arguments Geocode {Store Obj} impl g address.
Arguments ReverseGeocode {Store Obj} impl g lat lng.
Arguments step {Store Obj} impl net {T} c l s.
Arguments run {Store Obj} impl net {T} c ls s.

(** *** [response], with the panics of the decode *)

(** How a call ends: it returns, it panics, or it never ends; with the
    store as it is then. *)
Inductive ending (Store : Type) : Type :=
| Returns (st : Store)
| Panics (st : Store)
| Blocks.
Arguments Returns {Store} _.
Arguments Panics {Store} _.
Arguments Blocks {Store}.

(** The panics of the provider's decoding code that [json.Unmarshal] lets
    through (a run-time error in an [UnmarshalJSON] method, say): for the
    data, the handle and the store, [Some st'] when the decoding panics,
    the store being [st'] by then, [None] when it does not. *)
Definition hazard (Store Obj : Type) : Type := string -> Obj -> Store -> option Store.

(** [json.Unmarshal(data, obj)]: the data is checked first; the decoding
    of well-formed data returns, or panics. *)
Definition Unmarshal_ending {Store Obj : Type} (impl : ResponseParser Store Obj)
  (panics : hazard Store Obj) (data : string) (obj : Obj) (st : Store)
  : ending Store :=
  if json.checkValid data then
    match panics data obj st with
    | Some st' => Panics st'
    | None => Returns (fst (d_unmarshal impl data obj st))
    end
  else Returns st.

(** [response(url, obj)]: there is no [recover] in it, so a panic of
    [json.Unmarshal] is its own ending; the deferred [Close] runs and the
    panic goes on. The calls before the decode ([http.NewRequest],
    [Client.Do], [ioutil.ReadAll]) are those of [Net]: they return a value
    or an error, or do not return. *)
Definition response_ending {Store Obj : Type} (impl : ResponseParser Store Obj)
  (panics : hazard Store Obj) (net : Net) (url : string) (obj : Obj) (st : Store)
  : ending Store :=
  match NewRequest net "GET" url with
  | Ok req =>
      match Do net req with
      | None => Blocks
      | Some (Ok resp) =>
          match ReadAll resp with
          | None => Blocks
          | Some (data, None) => Unmarshal_ending impl panics (Trim data " []") obj st
          | Some (_, Some _) => Returns st
          end
      | Some (Err _) => Returns st
      end
  | Err _ => Returns st
  end.

(** * The vocabulary of the properties *)

(** ** Bytes and strings *)

Fixpoint all_in (cutset s : string) : bool :=
  match s with
  | EmptyString => true
  | String c s' => contains cutset c && all_in cutset s'
  end.

Definition first_byte (s : string) : option ascii :=
  match s with EmptyString => None | String c _ => Some c end.

Fixpoint last_byte (s : string) : option ascii :=
  match s with
  | EmptyString => None
  | String c EmptyString => Some c
  | String _ s' => last_byte s'
  end.

(** The bytes [QueryEscape] copies unchanged. *)
Fixpoint unreserved (s : string) : bool :=
  match s with
  | EmptyString => true
  | String c s' => negb (shouldEscape c) && unreserved s'
  end.

(** A string holding one double-quote character, to write JSON texts. *)
Definition dq : string := String (ascii_of_nat 34) EmptyString.

(** The JSON text of an object with two numeric members. *)
Definition object2 (k1 v1 k2 v2 : string) : string :=
  "{" ++ dq ++ k1 ++ dq ++ ":" ++ v1 ++ "," ++ dq ++ k2 ++ dq ++ ":" ++ v2 ++ "}".

(** A string holding one line feed. *)
Definition nl : string := String (ascii_of_nat 10) EmptyString.

(** ** The scanner's invariant *)

(** Once the top-level value has ended, the scanner waits at [stateEndTop],
    or has met an error. *)
Definition ended (s : json.scanner) : Prop :=
  json.endTop s = true ->
  json.step s = json.stateEndTop \/ json.step s = json.stateError.

(** ** Zero, as [==] sees it *)

(** The two zeros of binary64. *)
Definition is_zero (x : float) : Prop := x = 0%float \/ x = (-0)%float.

(** Go's [==] on [Location] values: field by field. *)
Definition Location_eqb (a b : Location) : bool :=
  PrimFloat.eqb (Lat a) (Lat b) && PrimFloat.eqb (Lng a) (Lng b).

(** ** The goroutine's program and the invariant of a call *)

Section Invariant.

Context {Store Obj T : Type}.
Variable impl : ResponseParser Store Obj.
Variable net : Net.
Variable c : call Store Obj T.

(** What the goroutine computes, when the network answers: the store after
    [response], and the value it then reads. *)
Definition fetched (st : Store) : option Store :=
  let (obj, st1) := call_target c st in
  response impl net (call_url c) obj st1.

Definition worker_value (st : Store) : option T :=
  match fetched st with
  | Some st2 => Some (call_read c st2)
  | None => None
  end.

(** The goroutine follows its program: the store and the value it holds at
    each point, from the store [st0] the call started with. *)
Definition worker_inv (st0 : Store) (s : config Store Obj T) : Prop :=
  match worker s with
  | GoStart => store s = st0
  | GoCalling url obj => url = call_url c /\ call_target c st0 = (obj, store s)
  | GoReturned => fetched st0 = Some (store s)
  | GoSending v => fetched st0 = Some (store s) /\ v = call_read c (store s)
  | GoExit => fetched st0 = Some (store s)
  end.

(** The caller returned what the select case it took says; the goroutine is
    over exactly when its send was received. *)
Definition main_inv (s : config Store Obj T) : Prop :=
  (0 <= clock s)%Z /\
  match main s with
  | Selecting => worker s <> GoExit
  | Returned v e =>
      (worker s = GoExit /\ v = call_read c (store s)
       /\ e = anyError (call_any c v))
      \/ (worker s <> GoExit /\ v = call_zero c /\ e = Some TimeoutError
          /\ (call_timeout c <= clock s)%Z)
  end.

Definition inv (st0 : Store) (s : config Store Obj T) : Prop :=
  worker_inv st0 s /\ main_inv s.

(** The labels of the two select cases. *)
Definition is_race (l : label) : bool :=
  match l with Deliver | Expire => true | _ => false end.

(** How many times a schedule takes a select case. *)
Definition races (ls : list label) : nat := List.length (List.filter is_race ls).

Definition returned (s : config Store Obj T) : bool :=
  match main s with Selecting => false | Returned _ _ => true end.

End Invariant.

(** What holds of the race of one call [c] started in store [st0]:
    - a schedule takes a select case once if the caller has returned, and
      not at all if it has not;
    - after the goroutine's case, the goroutine is over and the timer's
      case is never taken;
    - after the timer's case, the caller has the timeout result and the
      goroutine is not over;
    - it is not stopped either: when the network answers, the goroutine goes
      on to its send, and there it stays, whatever is scheduled next, the
      caller's result unchanged. *)
Definition race_law {Store Obj T : Type} (impl : ResponseParser Store Obj)
  (net : Net) (c : call Store Obj T) (st0 : Store) : Prop :=
  (forall ls s, run impl net c ls (init st0) = Some s ->
                races ls = if returned s then 1%nat else 0%nat)
  /\ (forall ls s, run impl net c ls (init st0) = Some s -> In Deliver ls ->
                   worker s = GoExit /\ ~ In Expire ls)
  /\ (forall ls s, run impl net c ls (init st0) = Some s -> In Expire ls ->
                   outcome s = Some (call_zero c, Some TimeoutError)
                   /\ worker s <> GoExit)
  /\ (forall ls s st2,
        run impl net c ls (init st0) = Some s -> In Expire ls ->
        fetched impl net c st0 = Some st2 ->
        exists ls' s',
          run impl net c ls' s = Some s'
          /\ worker s' = GoSending (call_read c st2)
          /\ outcome s' = outcome s
          /\ forall ls'' s'',
               run impl net c ls'' s' = Some s'' ->
               worker s'' = GoSending (call_read c st2)
               /\ outcome s'' = outcome s).

(** ** Networks made from networks *)

(** A network whose answers are changed by [f], errors and silence kept. *)
Definition map_responses (f : Response -> Response) (net : Net) : Net := {|
  NewRequest := NewRequest net;
  Do := fun req =>
          match Do net req with
          | Some (Ok resp) => Some (Ok (f resp))
          | other => other
          end
|}.

(** The same answer, its body put between [[] and []]. *)
Definition wrap_body (resp : Response) : Response := {|
  StatusCode := StatusCode resp;
  Body := match Body resp with
          | Some (data, err) => Some ("[" ++ data ++ "]", err)
          | None => None
          end
|}.

(** The same answer under another status code. *)
Definition with_status (status : Z) (resp : Response) : Response := {|
  StatusCode := status;
  Body := Body resp
|}.

(** ** The escaped form of an address *)

(** The upper-case hexadecimal digits. *)
Definition isUpperHex (c : ascii) : bool :=
  between 48 57 (nat_of_ascii c) || between 65 70 (nat_of_ascii c).

(** A text of unreserved bytes, [+], and [%] before two upper-case
    hexadecimal digits. *)
Fixpoint well_escaped (s : string) : bool :=
  match s with
  | EmptyString => true
  | String c s' =>
      if Ascii.eqb c "%" then
        match s' with
        | String h1 (String h2 s'') => isUpperHex h1 && isUpperHex h2 && well_escaped s''
        | _ => false
        end
      else (negb (shouldEscape c) || Ascii.eqb c "+") && well_escaped s'
  end.

(** The value of a hexadecimal digit. *)
Definition unhex (c : ascii) : nat :=
  let n := nat_of_ascii c in
  if between 48 57 n then n - 48
  else if between 65 70 n then n - 55
  else if between 97 102 n then n - 87
  else 0.

(** What a server reads back from a query component: [+] is a space, [%XX]
    is the byte with that code, any other byte is itself. *)
Fixpoint unescape (s : string) : string :=
  match s with
  | EmptyString => EmptyString
  | String c s' =>
      if Ascii.eqb c "+" then String " " (unescape s')
      else if Ascii.eqb c "%" then
             match s' with
             | String h1 (String h2 s'') =>
                 String (ascii_of_nat (16 * unhex h1 + unhex h2)) (unescape s'')
             | _ => String c (unescape s')
             end
           else String c (unescape s')
  end.

(** ** What the network does with one request *)

(** The request for [url] is never answered: [Do] does not return, or the
    body never ends. *)
Definition never_answers (net : Net) (url : string) : Prop :=
  exists req,
    NewRequest net "GET" url = Ok req
    /\ (Do net req = None
        \/ exists resp, Do net req = Some (Ok resp) /\ ReadAll resp = None).

(** The request for [url] ends without a decode: the request cannot be
    built, the transport fails, the read of the body fails, or the trimmed
    body is not well-formed. *)
Definition undecoded (net : Net) (url : string) : Prop :=
  (exists e, NewRequest net "GET" url = Err e)
  \/ (exists req e, NewRequest net "GET" url = Ok req /\ Do net req = Some (Err e))
  \/ (exists req resp data e,
        NewRequest net "GET" url = Ok req /\ Do net req = Some (Ok resp)
        /\ ReadAll resp = Some (data, Some e))
  \/ (exists req resp data,
        NewRequest net "GET" url = Ok req /\ Do net req = Some (Ok resp)
        /\ ReadAll resp = Some (data, None)
        /\ json.checkValid (Trim data " []") = false).

(** ** Laws of one call *)

(** The transport decides the branch: without an answer the goroutine's
    send never happens and every return is the timeout, not before it has
    elapsed; with an answer the goroutine's value can be returned at once. *)
Definition answer_law {Store Obj T : Type} (impl : ResponseParser Store Obj)
  (net : Net) (c : call Store Obj T) (st0 : Store) : Prop :=
  (never_answers net (call_url c) ->
   forall ls s,
     run impl net c ls (init st0) = Some s ->
     ~ In Deliver ls
     /\ worker s <> GoReturned /\ (forall v, worker s <> GoSending v)
     /\ worker s <> GoExit
     /\ forall v e, outcome s = Some (v, e) ->
                    (v, e) = (call_zero c, Some TimeoutError)
                    /\ (call_timeout c <= clock s)%Z)
  /\ (~ never_answers net (call_url c) ->
      exists s v e,
        run impl net c [Args; Fetch; Read; Deliver] (init st0) = Some s
        /\ outcome s = Some (v, e) /\ e <> Some TimeoutError /\ clock s = 0%Z).

(** A return before the timeout has elapsed is the goroutine's. *)
Definition early_law {Store Obj T : Type} (impl : ResponseParser Store Obj)
  (net : Net) (c : call Store Obj T) (st0 : Store) : Prop :=
  forall ls s v e,
    run impl net c ls (init st0) = Some s ->
    outcome s = Some (v, e) -> (clock s < call_timeout c)%Z ->
    In Deliver ls /\ ~ In Expire ls /\ worker s = GoExit
    /\ worker_value impl net c st0 = Some v
    /\ (e = None \/ e = Some NoResultError).

(** After the goroutine's value is returned the call is over: whatever is
    scheduled next is the passing of time, and the store, the goroutine and
    the result stay as they are. *)
Definition quiet_law {Store Obj T : Type} (impl : ResponseParser Store Obj)
  (net : Net) (c : call Store Obj T) (st0 : Store) : Prop :=
  forall ls s,
    run impl net c ls (init st0) = Some s -> In Deliver ls ->
    forall ls' s',
      run impl net c ls' s = Some s' ->
      Forall (fun l => exists dt, l = Tick dt) ls'
      /\ store s' = store s /\ worker s' = GoExit /\ outcome s' = outcome s.

(** ** Two calls on one store *)

(** Two calls that share the store, their callers having entered their
    selects together: for each call its goroutine and its caller, and one
    clock. *)
Record config2 (Store Obj T1 T2 : Type) : Type := mkConfig2 {
  shared : Store;
  worker1 : goroutine Obj T1;
  main1 : caller T1;
  worker2 : goroutine Obj T2;
  main2 : caller T2;
  clock2 : Z
}.
Arguments mkConfig2 {Store Obj T1 T2} _ _ _ _ _ _.
Arguments shared {Store Obj T1 T2} _.
Arguments worker1 {Store Obj T1 T2} _.
Arguments main1 {Store Obj T1 T2} _.
Arguments worker2 {Store Obj T1 T2} _.
Arguments main2 {Store Obj T1 T2} _.
Arguments clock2 {Store Obj T1 T2} _.

(** Time passes for both calls, or one of them takes a step of its own. *)
Inductive label2 : Type :=
| Pass (dt : Z)
| Call1 (l : label)
| Call2 (l : label).

Definition is_tick (l : label) : bool :=
  match l with Tick _ => true | _ => false end.

Definition step2 {Store Obj T1 T2 : Type} (impl : ResponseParser Store Obj) (net : Net)
  (c1 : call Store Obj T1) (c2 : call Store Obj T2) (l : label2)
  (s : config2 Store Obj T1 T2) : option (config2 Store Obj T1 T2) :=
  match l with
  | Pass dt =>
      if (0 <? dt)%Z
      then Some (mkConfig2 (shared s) (worker1 s) (main1 s) (worker2 s) (main2 s)
                   (clock2 s + dt))
      else None
  | Call1 l =>
      if is_tick l then None
      else match step impl net c1 l (mkConfig (shared s) (worker1 s) (main1 s) (clock2 s)) with
           | Some s' =>
               Some (mkConfig2 (store s') (worker s') (main s') (worker2 s) (main2 s)
                       (clock2 s))
           | None => None
           end
  | Call2 l =>
      if is_tick l then None
      else match step impl net c2 l (mkConfig (shared s) (worker2 s) (main2 s) (clock2 s)) with
           | Some s' =>
               Some (mkConfig2 (store s') (worker1 s) (main1 s) (worker s') (main s')
                       (clock2 s))
           | None => None
           end
  end.

Fixpoint run2 {Store Obj T1 T2 : Type} (impl : ResponseParser Store Obj) (net : Net)
  (c1 : call Store Obj T1) (c2 : call Store Obj T2) (ls : list label2)
  (s : config2 Store Obj T1 T2) : option (config2 Store Obj T1 T2) :=
  match ls with
  | [] => Some s
  | l :: ls' =>
      match step2 impl net c1 c2 l s with
      | Some s' => run2 impl net c1 c2 ls' s'
      | None => None
      end
  end.

Definition init2 {Store Obj T1 T2 : Type} (st : Store) : config2 Store Obj T1 T2 :=
  mkConfig2 st GoStart Selecting GoStart Selecting 0.

Definition outcome1 {Store Obj T1 T2 : Type} (s : config2 Store Obj T1 T2)
  : option (T1 * option error) :=
  match main1 s with Selecting => None | Returned v err => Some (v, err) end.

Definition outcome2 {Store Obj T1 T2 : Type} (s : config2 Store Obj T1 T2)
  : option (T2 * option error) :=
  match main2 s with Selecting => None | Returned v err => Some (v, err) end.

(** ** How often a schedule takes a step *)

Definition label_eqb (a b : label) : bool :=
  match a, b with
  | Tick x, Tick y => (x =? y)%Z
  | Args, Args | Fetch, Fetch | Read, Read | Deliver, Deliver | Expire, Expire => true
  | _, _ => false
  end.

Definition times (l : label) (ls : list label) : nat :=
  List.length (List.filter (label_eqb l) ls).

(** How far the goroutine has come. *)
Definition phase {Obj T : Type} (w : goroutine Obj T) : nat :=
  match w with
  | GoStart => 0
  | GoCalling _ _ => 1
  | GoReturned => 2
  | GoSending _ => 3
  | GoExit => 4
  end.

(** Each step of the goroutine is taken once, when the goroutine has come
    that far, and never again. *)
Definition once_law {Store Obj T : Type} (impl : ResponseParser Store Obj)
  (net : Net) (c : call Store Obj T) (st0 : Store) : Prop :=
  forall ls s,
    run impl net c ls (init st0) = Some s ->
    times Args ls = (if (1 <=? phase (worker s))%nat then 1 else 0)%nat
    /\ times Fetch ls = (if (2 <=? phase (worker s))%nat then 1 else 0)%nat
    /\ times Read ls = (if (3 <=? phase (worker s))%nat then 1 else 0)%nat
    /\ times Deliver ls = (if (4 <=? phase (worker s))%nat then 1 else 0)%nat
    /\ (times Deliver ls + times Expire ls
        = if returned s then 1 else 0)%nat.

(** The writes of a call, [response] being one step, taken when it
    returns: before the goroutine has evaluated its arguments the store is
    the one the call started with; a step that changes the store is the
    evaluation of the arguments or the return of [response]; and once
    [response] has returned the store is the one [g.ResponseObject()] left
    or the one [json.Unmarshal] left from it, for the rest of the call. *)
Definition footprint_law {Store Obj T : Type} (impl : ResponseParser Store Obj)
  (net : Net) (c : call Store Obj T) (st0 : Store) : Prop :=
  (forall ls s,
     run impl net c ls (init st0) = Some s -> worker s = GoStart -> store s = st0)
  /\ (forall ls s l s',
        run impl net c ls (init st0) = Some s -> step impl net c l s = Some s' ->
        store s' <> store s -> l = Args \/ l = Fetch)
  /\ (forall obj st1 ls s,
        call_target c st0 = (obj, st1) ->
        run impl net c ls (init st0) = Some s ->
        (2 <= phase (worker s))%nat ->
        (store s = st1
         \/ exists data, store s = fst (Unmarshal impl (Trim data " []") obj st1))
        /\ forall ls' s', run impl net c ls' s = Some s' -> store s' = store s).

(** The same answer, its body trimmed beforehand. *)
Definition trim_body (resp : Response) : Response := {|
  StatusCode := StatusCode resp;
  Body := match Body resp with
          | Some (data, err) => Some (Trim data " []", err)
          | None => None
          end
|}.

(** ** Test doubles *)

Module Fake.

(** A parser object: the coordinate and the address it decoded. *)
Definition cell : Type := (Location * string)%type.
Definition blank : cell := (zeroLocation, EmptyString).

(** The store: the parser objects allocated so far; a handle is an index. *)
Definition heap : Type := list cell.

Definition load (r : nat) (h : heap) : cell := nth r h blank.

Fixpoint write (r : nat) (v : cell) (h : heap) : heap :=
  match h, r with
  | [], _ => []
  | _ :: h', O => v :: h'
  | x :: h', S r' => x :: write r' v h'
  end.

(** The payloads a fake decoder knows, with what each decodes to. *)
Definition table : Type := list (string * cell).

Fixpoint lookup (t : table) (data : string) : option cell :=
  match t with
  | [] => None
  | (k, v) :: t' => if String.eqb k data then Some v else lookup t' data
  end.

(** A known payload is written through the handle; any other document is
    an error and leaves the object as it was. *)
Definition unmarshal (t : table) (data : string) (r : nat) (h : heap)
  : heap * option error :=
  match lookup t data with
  | Some v => (write r v h, None)
  | None => (h, Some (LibError "json: cannot unmarshal"))
  end.

(** [ResponseObject] returns the receiver: the decode target is the
    facade's own parser. *)
Definition sharing (t : table) : ResponseParser heap nat := {|
  Location_of := fun r h => fst (load r h);
  Address_of := fun r h => snd (load r h);
  ResponseObject := fun r h => (r, h);
  d_unmarshal := unmarshal t
|}.

(** [ResponseObject] allocates a blank object for each request. *)
Definition allocating (t : table) : ResponseParser heap nat := {|
  Location_of := fun r h => fst (load r h);
  Address_of := fun r h => snd (load r h);
  ResponseObject := fun r h => (List.length h, (h ++ [blank])%list);
  d_unmarshal := unmarshal t
|}.

(** A builder that hands back the address it is given. *)
Definition echo : EndpointBuilder := {|
  GeocodeUrl := fun address => address;
  ReverseGeocodeUrl := fun _ => "http://fake/reverse"
|}.

Definition builder : EndpointBuilder := {|
  GeocodeUrl := fun address => "http://fake/geocode?q=" ++ address;
  ReverseGeocodeUrl := fun _ => "http://fake/reverse"
|}.

(** A network that answers every request with one status and body. *)
Definition serve (status : Z) (body : string) : Net := {|
  NewRequest := fun m u => Ok {| Method := m; URL := u |};
  Do := fun _ => Some (Ok {| StatusCode := status; Body := Some (body, None) |})
|}.

(** A network whose server never answers. *)
Definition hang : Net := {|
  NewRequest := fun m u => Ok {| Method := m; URL := u |};
  Do := fun _ => None
|}.

(** A network that refuses every connection. *)
Definition refuse : Net := {|
  NewRequest := fun m u => Ok {| Method := m; URL := u |};
  Do := fun _ => Some (Err (LibError "connection refused"))
|}.

Definition Paris : Location := mkLocation 48.8566%float 2.3522%float.

Definition paris_body : string := object2 "lat" "48.8566" "lng" "2.3522".

Definition paris_table : table := [(paris_body, (Paris, "Paris, France"))].

(** The facade, its parser being the first object of the store. *)
Definition g (b : EndpointBuilder) : Geocoder nat := {|
  g_EndpointBuilder := b;
  g_ResponseParser := 0%nat
|}.

End Fake.

(** More doubles: a builder and a network that tell requests apart. *)
Module Double.

Definition Lyon : Location := mkLocation 45.764%float 4.8357%float.

Definition lyon_body : string := object2 "lat" "45.764" "lng" "4.8357".

Definition cities : Fake.table :=
  [(Fake.paris_body, (Fake.Paris, "Paris, France"));
   (lyon_body, (Lyon, "Lyon, France"))].

(** The reverse URL names the city the coordinates are those of. *)
Definition atlas : EndpointBuilder := {|
  GeocodeUrl := fun address => "http://fake/geocode?q=" ++ address;
  ReverseGeocodeUrl := fun l =>
    if Location_eqb l Fake.Paris then "http://fake/reverse?city=Paris"
    else if Location_eqb l Lyon then "http://fake/reverse?city=Lyon"
    else "http://fake/reverse?city="
|}.

Fixpoint ends_with (suffix s : string) : bool :=
  String.eqb suffix s
  || match s with
     | EmptyString => false
     | String _ s' => ends_with suffix s'
     end.

(** A network that answers for Paris and for Lyon by the end of the URL,
    and with an empty array for anything else. *)
Definition cities_net : Net := {|
  NewRequest := fun m u => Ok {| Method := m; URL := u |};
  Do := fun req =>
    let body := if ends_with "Paris" (URL req) then Fake.paris_body
                else if ends_with "Lyon" (URL req) then lyon_body
                else "[]" in
    Some (Ok {| StatusCode := 200; Body := Some (body, None) |})
|}.

(** A decoding that panics on the empty object and on nothing else. *)
Definition explosive : hazard Fake.heap nat :=
  fun data _ h => if String.eqb data "{}" then Some h else None.

(** A network whose body never ends. *)
Definition endless : Net := {|
  NewRequest := fun m u => Ok {| Method := m; URL := u |};
  Do := fun _ => Some (Ok {| StatusCode := 200; Body := None |})
|}.

End Double.

(** * Properties *)

Example Trim_wrapped :
  Trim ("[" ++ object2 "lat" "1.0" "lng" "2.0" ++ "]") " []"
  = object2 "lat" "1.0" "lng" "2.0".
Proof. reflexivity. Qed.

Example QueryEscape_space : QueryEscape "10 Rue de la Paix, Paris" = "10+Rue+de+la+Paix%2C+Paris".
Proof. reflexivity. Qed.

(** ** Bytes and strings *)

Lemma append_empty_r (s : string) : s ++ EmptyString = s.
Proof. induction s as [|c s IH]; simpl; [reflexivity | now rewrite IH]. Qed.

Lemma append_assoc3 (a b c : string) : (a ++ b) ++ c = a ++ (b ++ c).
Proof. induction a as [|x a IH]; simpl; [reflexivity | now rewrite IH]. Qed.

Lemma length_app (a b : string) :
  String.length (a ++ b) = (String.length a + String.length b)%nat.
Proof. induction a as [|x a IH]; simpl; [reflexivity | now rewrite IH]. Qed.

Lemma last_byte_cons (c : ascii) (s : string) :
  last_byte (String c s) = match s with EmptyString => Some c | _ => last_byte s end.
Proof. destruct s; reflexivity. Qed.

Lemma last_byte_app_nonempty (a b : string) :
  b <> EmptyString -> last_byte (a ++ b) = last_byte b.
Proof.
  intros Hb. induction a as [|x a IH]; simpl; [reflexivity|].
  destruct (a ++ b) eqn:E.
  - destruct a; simpl in E; [contradiction | discriminate].
  - exact IH.
Qed.

(** *** trimLeftASCII *)

Lemma trimLeftASCII_run (cutset pre s : string) :
  all_in cutset pre = true ->
  trimLeftASCII (pre ++ s) cutset = trimLeftASCII s cutset.
Proof.
  induction pre as [|c pre IH]; simpl; intros H; [reflexivity|].
  apply andb_true_iff in H as [Hc Hpre]. rewrite Hc. now apply IH.
Qed.

Lemma trimLeftASCII_first (cutset s : string) (c : ascii) :
  first_byte (trimLeftASCII s cutset) = Some c -> contains cutset c = false.
Proof.
  induction s as [|x s IH]; simpl; [discriminate|].
  destruct (contains cutset x) eqn:E; [exact IH|].
  simpl. intros [= <-]. exact E.
Qed.

Lemma trimLeftASCII_split (cutset s : string) :
  exists pre, s = pre ++ trimLeftASCII s cutset /\ all_in cutset pre = true.
Proof.
  induction s as [|x s [pre [Hs Hpre]]]; simpl.
  - exists EmptyString. now split.
  - destruct (contains cutset x) eqn:E.
    + exists (String x pre). simpl. rewrite E, Hpre. split; [now rewrite <- Hs | reflexivity].
    + exists EmptyString. now split.
Qed.

Lemma trimLeftASCII_last (cutset s : string) :
  trimLeftASCII s cutset <> EmptyString ->
  last_byte (trimLeftASCII s cutset) = last_byte s.
Proof.
  intros Hne. destruct (trimLeftASCII_split cutset s) as [pre [Hs _]].
  rewrite Hs at 2. symmetry. now apply last_byte_app_nonempty.
Qed.

(** *** trimRightASCII *)

Lemma trimRightASCII_all (cutset s : string) :
  all_in cutset s = true -> trimRightASCII s cutset = EmptyString.
Proof.
  induction s as [|c s IH]; simpl; intros H; [reflexivity|].
  apply andb_true_iff in H as [Hc Hs]. now rewrite (IH Hs), Hc.
Qed.

Lemma trimRightASCII_run (cutset s post : string) :
  all_in cutset post = true ->
  trimRightASCII (s ++ post) cutset = trimRightASCII s cutset.
Proof.
  intros H. induction s as [|c s IH]; simpl.
  - now apply trimRightASCII_all.
  - now rewrite IH.
Qed.

Lemma trimRightASCII_last (cutset s : string) (c : ascii) :
  last_byte (trimRightASCII s cutset) = Some c -> contains cutset c = false.
Proof.
  induction s as [|x s IH]; simpl; [discriminate|].
  destruct (trimRightASCII s cutset) as [|y r] eqn:E.
  - destruct (contains cutset x) eqn:Ex; simpl; [discriminate|].
    intros [= <-]. exact Ex.
  - rewrite last_byte_cons. exact IH.
Qed.

Lemma trimRightASCII_split (cutset s : string) :
  exists post, s = trimRightASCII s cutset ++ post /\ all_in cutset post = true.
Proof.
  induction s as [|x s [post [Hs Hpost]]]; simpl.
  - exists EmptyString. now split.
  - destruct (trimRightASCII s cutset) as [|y r] eqn:E.
    + destruct (contains cutset x) eqn:Ex.
      * exists (String x post). simpl in *. rewrite Ex, Hpost. split; [now rewrite <- Hs | reflexivity].
      * exists post. simpl in *. split; [now rewrite <- Hs | assumption].
    + exists post. simpl in *. split; [now rewrite <- Hs | assumption].
Qed.

Lemma trimRightASCII_no_cutset (s : string) : trimRightASCII s EmptyString = s.
Proof.
  induction s as [|c s IH]; simpl; [reflexivity|].
  rewrite IH. now destruct s.
Qed.

Lemma trimLeftASCII_no_cutset (s : string) : trimLeftASCII s EmptyString = s.
Proof. now destruct s. Qed.

(** *** Trim *)

Lemma Trim_eq (s cutset : string) :
  Trim s cutset = trimLeftASCII (trimRightASCII s cutset) cutset.
Proof.
  unfold Trim. destruct s as [|c s]; [reflexivity|].
  destruct cutset as [|d cutset]; [|reflexivity].
  cbn [is_empty orb]. now rewrite trimRightASCII_no_cutset, trimLeftASCII_no_cutset.
Qed.

Lemma trim_left_of_right_run (cutset pre t : string) :
  all_in cutset pre = true ->
  trimLeftASCII (trimRightASCII (pre ++ t) cutset) cutset
  = trimLeftASCII (trimRightASCII t cutset) cutset.
Proof.
  induction pre as [|c pre IH]; intros H; [reflexivity|].
  simpl in H. apply andb_true_iff in H as [Hc Hpre].
  specialize (IH Hpre). simpl.
  destruct (trimRightASCII (pre ++ t) cutset) as [|y r] eqn:E.
  - rewrite Hc. simpl in IH. now rewrite <- IH.
  - cbn [trimLeftASCII]. rewrite Hc. exact IH.
Qed.

(** Runs of cutset bytes around a text do not reach the result. *)
Lemma Trim_runs (cutset pre s post : string) :
  all_in cutset pre = true -> all_in cutset post = true ->
  Trim (pre ++ s ++ post) cutset = Trim s cutset.
Proof.
  intros Hpre Hpost. rewrite !Trim_eq.
  rewrite trim_left_of_right_run by assumption.
  now rewrite trimRightASCII_run.
Qed.

Lemma Trim_first (cutset s : string) (c : ascii) :
  first_byte (Trim s cutset) = Some c -> contains cutset c = false.
Proof. rewrite Trim_eq. apply trimLeftASCII_first. Qed.

Lemma Trim_last (cutset s : string) (c : ascii) :
  last_byte (Trim s cutset) = Some c -> contains cutset c = false.
Proof.
  rewrite Trim_eq. intros H.
  assert (Hne : trimLeftASCII (trimRightASCII s cutset) cutset <> EmptyString)
    by (intros E; rewrite E in H; discriminate).
  rewrite (trimLeftASCII_last _ _ Hne) in H.
  now apply trimRightASCII_last in H.
Qed.

Lemma Trim_split (cutset s : string) :
  exists pre post,
    s = pre ++ Trim s cutset ++ post
    /\ all_in cutset pre = true /\ all_in cutset post = true.
Proof.
  destruct (trimRightASCII_split cutset s) as [post [Hs Hpost]].
  destruct (trimLeftASCII_split cutset (trimRightASCII s cutset)) as [pre [Hr Hpre]].
  exists pre, post. rewrite Trim_eq. repeat split; try assumption.
  rewrite <- append_assoc3, <- Hr. exact Hs.
Qed.

(** A text that neither starts nor ends with a cutset byte is left alone. *)
Lemma Trim_id (cutset s : string) (a b : ascii) :
  first_byte s = Some a -> last_byte s = Some b ->
  contains cutset a = false -> contains cutset b = false ->
  Trim s cutset = s.
Proof.
  intros Ha Hb Hca Hcb. rewrite Trim_eq.
  assert (Hr : trimRightASCII s cutset = s).
  { clear Ha Hca a. revert b Hb Hcb.
    induction s as [|x s IH]; intros b Hb Hcb; [reflexivity|].
    simpl. rewrite last_byte_cons in Hb. destruct s as [|y s].
    - injection Hb as ->. simpl. now rewrite Hcb.
    - rewrite (IH b Hb Hcb). reflexivity. }
  rewrite Hr. destruct s as [|x s]; [reflexivity|].
  simpl in *. injection Ha as ->. now rewrite Hca.
Qed.

(** *** QueryEscape *)

Lemma length_escape (s : string) : (String.length s <= String.length (escape s))%nat.
Proof.
  induction s as [|c s IH]; simpl; [lia|].
  destruct (Ascii.eqb c " "); [simpl; lia|].
  destruct (shouldEscape c); simpl; lia.
Qed.

Lemma shouldEscape_space : shouldEscape " " = true.
Proof. reflexivity. Qed.

Lemma escape_fixed (s : string) : escape s = s <-> unreserved s = true.
Proof.
  induction s as [|c s IH]; simpl; [tauto|].
  destruct (Ascii.eqb c " ") eqn:Esp.
  - apply Ascii.eqb_eq in Esp. subst c. rewrite shouldEscape_space. simpl.
    split; [intros [= H _]; discriminate H | discriminate].
  - destruct (shouldEscape c) eqn:Ec; simpl.
    + split; [|discriminate].
      intros [= _ Hs]. exfalso.
      pose proof (length_escape s) as Hlen.
      rewrite <- Hs in Hlen at 1. simpl in Hlen. lia.
    + rewrite <- IH. split; [now intros [= ->] | now intros ->].
Qed.

(** *** Trim before a byte it keeps *)

Lemma trimRightASCII_keep (cutset a b : string) :
  trimRightASCII b cutset <> EmptyString ->
  trimRightASCII (a ++ b) cutset = a ++ trimRightASCII b cutset.
Proof.
  intros Hb. induction a as [|x a IH]; [reflexivity|].
  cbn [append trimRightASCII]. rewrite IH.
  destruct (a ++ trimRightASCII b cutset) eqn:E; [|reflexivity].
  destruct a; cbn [append] in E; [contradiction | discriminate].
Qed.

Lemma trimRightASCII_cons_keep (cutset : string) (c : ascii) (s : string) :
  contains cutset c = false ->
  trimRightASCII (String c s) cutset = String c (trimRightASCII s cutset).
Proof.
  intros Hc. cbn [trimRightASCII]. rewrite Hc.
  now destruct (trimRightASCII s cutset).
Qed.

(** A run, then a text that starts with a byte the cutset has not, then a
    byte the cutset has not: the run goes, the text stays whole. *)
Lemma Trim_run_text (cutset pre : string) (a c : ascii) (e rest : string) :
  all_in cutset pre = true ->
  contains cutset a = false -> contains cutset c = false ->
  Trim (pre ++ String a e ++ String c rest) cutset
  = String a e ++ String c (trimRightASCII rest cutset).
Proof.
  intros Hpre Ha Hc. rewrite Trim_eq, trim_left_of_right_run by assumption.
  rewrite trimRightASCII_keep.
  - rewrite trimRightASCII_cons_keep by assumption.
    cbn [append trimLeftASCII]. now rewrite Ha.
  - rewrite trimRightASCII_cons_keep by assumption. discriminate.
Qed.

(** *** The scanner of encoding/json *)

Lemma scan_app (s : json.scanner) (a b : string) :
  json.scan s (a ++ b) = json.scan (json.scan s a) b.
Proof. revert s. induction a as [|c a IH]; intros s; [reflexivity | apply IH]. Qed.

(** An error stays. *)
Lemma scan_error (s : json.scanner) (data : string) :
  json.step s = json.stateError -> json.step (json.scan s data) = json.stateError.
Proof.
  revert s. induction data as [|c data IH]; intros s H; [exact H|].
  cbn [json.scan]. apply IH. unfold json.scan_byte. now rewrite H.
Qed.

Ltac scan_cases :=
  unfold json.doBeginValueOrEmpty, json.doBeginStringOrEmpty, json.doBeginString,
    json.doBeginValue, json.doInString, json.doInStringEsc, json.doHex, json.doNeg,
    json.do1, json.do0, json.doDot, json.doDot0, json.doE, json.doESign, json.doE0,
    json.doLetter, json.doEndValue, json.doEndTop, json.popParseState,
    json.pushParseState, json.error, json.to;
  repeat match goal with
    | |- context [if ?b then _ else _] => destruct b
    | |- context [match ?l with [] => _ | _ :: _ => _ end] => destruct l
    | |- context [match ?p with json.parseObjectKey => _ | _ => _ end] => destruct p
    end;
  cbn [json.step json.endTop json.parseState].

Lemma ended_scan_byte (s : json.scanner) (c : ascii) :
  ended s -> ended (json.scan_byte s c).
Proof.
  unfold ended. intros H. destruct s as [st top stack].
  cbn [json.step json.endTop] in H.
  destruct top.
  - destruct (H eq_refl) as [-> | ->]; unfold json.scan_byte;
      cbn [json.step]; scan_cases; auto.
  - clear H. unfold json.scan_byte. cbn [json.step].
    destruct st; scan_cases; intros; auto; discriminate.
Qed.

Lemma ended_scan (s : json.scanner) (data : string) :
  ended s -> ended (json.scan s data).
Proof.
  revert s. induction data as [|c data IH]; intros s H; [exact H|].
  cbn [json.scan]. apply IH. now apply ended_scan_byte.
Qed.

(** Where the input may end, a comma is an error. *)
Lemma comma_after_value (s : json.scanner) :
  ended s -> json.eof s = true ->
  json.step (json.scan_byte s ",") = json.stateError.
Proof.
  unfold ended, json.eof. intros H He. destruct s as [st top stack].
  cbn [json.step json.endTop] in *.
  destruct top.
  - destruct (H eq_refl) as [-> | ->]; [reflexivity | discriminate].
  - clear H. destruct st; try discriminate He;
      destruct stack as [|[| |] stack]; try discriminate He; reflexivity.
Qed.

(** A well-formed document followed by a comma is not well-formed. *)
Lemma checkValid_comma (e rest : string) :
  json.checkValid e = true ->
  json.checkValid (e ++ String "," rest) = false.
Proof.
  unfold json.checkValid. intros He.
  rewrite scan_app. cbn [json.scan].
  assert (Hend : ended (json.scan json.reset e))
    by (apply ended_scan; intros H; discriminate H).
  pose proof (comma_after_value _ Hend He) as Herr.
  apply (scan_error _ rest) in Herr.
  unfold json.eof. now rewrite Herr.
Qed.

(** ** Zero *)

Lemma eqb_zero (x : float) : PrimFloat.eqb x 0%float = true <-> is_zero x.
Proof.
  unfold is_zero. split.
  - intros H. rewrite eqb_spec in H.
    replace (Prim2SF 0%float) with (S754_zero false) in H by reflexivity.
    rewrite <- (SF2Prim_Prim2SF x).
    destruct (Prim2SF x) as [[|]|s| |s m e]; simpl in H.
    + right; reflexivity.
    + left; reflexivity.
    + destruct s; discriminate.
    + discriminate.
    + destruct s; discriminate.
  - intros [-> | ->]; reflexivity.
Qed.

Lemma anyError_values (v : any) : anyError v = None \/ anyError v = Some NoResultError.
Proof.
  destruct v as [l|a|]; simpl; [| |now left].
  - destruct (PrimFloat.eqb (Lat l) 0 && PrimFloat.eqb (Lng l) 0); [now right | now left].
  - destruct (String.eqb a EmptyString); [now right | now left].
Qed.

Lemma anyError_Location_zero (l : Location) :
  anyError (ALocation l) = Some NoResultError <-> is_zero (Lat l) /\ is_zero (Lng l).
Proof.
  simpl. rewrite <- !eqb_zero, <- andb_true_iff.
  destruct (PrimFloat.eqb (Lat l) 0 && PrimFloat.eqb (Lng l) 0); split; congruence.
Qed.

Lemma anyError_Location_nonzero (l : Location) :
  anyError (ALocation l) = None <-> ~ (is_zero (Lat l) /\ is_zero (Lng l)).
Proof.
  rewrite <- anyError_Location_zero.
  destruct (anyError_values (ALocation l)) as [E|E]; rewrite E; split; congruence.
Qed.

Lemma anyError_String_empty (a : string) :
  anyError (AString a) = Some NoResultError <-> a = EmptyString.
Proof.
  simpl. rewrite <- String.eqb_eq.
  destruct (String.eqb a EmptyString); split; congruence.
Qed.

Lemma anyError_String_nonempty (a : string) :
  anyError (AString a) = None <-> a <> EmptyString.
Proof.
  rewrite <- anyError_String_empty.
  destruct (anyError_values (AString a)) as [E|E]; rewrite E; split; congruence.
Qed.

(** ** The transition system *)

(** Inverting one step. *)
Ltac step_cases H :=
  match type of H with
  | step _ _ _ ?l ?s = Some _ =>
      tryif is_var l then destruct l else idtac;
      unfold step in H; simpl in H;
      repeat match type of H with
        | context [if ?b then _ else _] => destruct b eqn:?
        | context [match worker ?s with _ => _ end] => destruct (worker s) eqn:?
        | context [match main ?s with _ => _ end] => destruct (main s) eqn:?
        | context [let (_, _) := ?p in _] => destruct p eqn:?
        | context [match response ?a ?b ?u ?o ?st with _ => _ end] =>
            destruct (response a b u o st) eqn:?
        end;
      try discriminate H;
      injection H as <-; simpl in *
  end.

(** Taking the first step of a schedule. *)
Ltac run_step :=
  match goal with
  | |- context [run ?i ?n ?c (?l :: ?ls) ?s] =>
      change (run i n c (l :: ls) s)
        with (match step i n c l s with Some s1 => run i n c ls s1 | None => None end);
      unfold step at 1; cbn [worker store main clock]
  end.

Section Machine.

Context {Store Obj T : Type}.
Variable impl : ResponseParser Store Obj.
Variable net : Net.
Variable c : call Store Obj T.

Abbreviation step' := (step impl net c).
Abbreviation run' := (run impl net c).

Lemma run_app (l1 l2 : list label) (s : config Store Obj T) :
  run' (l1 ++ l2) s =
  match run' l1 s with Some s1 => run' l2 s1 | None => None end.
Proof.
  revert s. induction l1 as [|l l1 IH]; intros s; simpl; [reflexivity|].
  destruct (step' l s); [apply IH | reflexivity].
Qed.

Lemma run_cons (l : label) (ls : list label) (s : config Store Obj T) :
  run' (l :: ls) s =
  match step' l s with Some s1 => run' ls s1 | None => None end.
Proof. reflexivity. Qed.

(** A property kept by every step is kept by every schedule. *)
Lemma run_invariant (P : config Store Obj T -> Prop) :
  (forall l s s', P s -> step' l s = Some s' -> P s') ->
  forall ls s s', P s -> run' ls s = Some s' -> P s'.
Proof.
  intros Hstep ls. induction ls as [|l ls IH]; intros s s' HP Hrun; simpl in Hrun.
  - now injection Hrun as <-.
  - destruct (step' l s) as [s1|] eqn:E; [|discriminate].
    eapply IH; [|exact Hrun]. eapply Hstep; eassumption.
Qed.

(** Once the caller has returned, what it returned does not change. *)
Lemma step_returned (l : label) (s s' : config Store Obj T) v e :
  main s = Returned v e -> step' l s = Some s' -> main s' = Returned v e.
Proof. intros Hm H. step_cases H; congruence. Qed.

Lemma run_returned (ls : list label) (s s' : config Store Obj T) v e :
  main s = Returned v e -> run' ls s = Some s' -> main s' = Returned v e.
Proof.
  apply (run_invariant (fun s => main s = Returned v e)).
  intros l s1 s2. apply step_returned.
Qed.

Lemma inv_init (st0 : Store) : inv impl net c st0 (init st0).
Proof. repeat split; simpl; [lia | discriminate]. Qed.

Lemma inv_step (st0 : Store) (l : label) (s s' : config Store Obj T) :
  inv impl net c st0 s -> step' l s = Some s' -> inv impl net c st0 s'.
Proof.
  unfold inv, worker_inv, main_inv. intros [Hw [Hc Hm]] H.
  step_cases H.
  - (* Tick *)
    apply Z.ltb_lt in Heqb. split; [exact Hw|]. split; [lia|].
    destruct (main s) as [|v e]; [exact Hm|].
    destruct Hm as [Hm | (Hx & Hv & He & Ht)]; [left; exact Hm|].
    right. repeat split; try assumption. lia.
  - (* Args *)
    subst st0. split; [now split|]. split; [exact Hc|].
    destruct (main s) as [|v e]; [discriminate|].
    destruct Hm as [(Hx & _) | (Hx & Hv & He & Ht)]; [discriminate|].
    right. repeat split; try assumption. discriminate.
  - (* Fetch *)
    destruct Hw as [-> Ht]. split.
    + unfold fetched. rewrite Ht. assumption.
    + split; [exact Hc|]. destruct (main s) as [|v e]; [discriminate|].
      destruct Hm as [(Hx & _) | (Hx & Hv & He & Ht')]; [discriminate|].
      right. repeat split; try assumption. discriminate.
  - (* Read *)
    split; [now split|]. split; [exact Hc|].
    destruct (main s) as [|v e]; [discriminate|].
    destruct Hm as [(Hx & _) | (Hx & Hv & He & Ht')]; [discriminate|].
    right. repeat split; try assumption. discriminate.
  - (* Deliver *)
    destruct Hw as [Hf ->]. split; [exact Hf|]. split; [exact Hc|].
    left. repeat split.
  - (* Expire *)
    apply Z.leb_le in Heqb. split; [exact Hw|]. split; [exact Hc|].
    right. repeat split; assumption.
Qed.

Lemma inv_run (st0 : Store) (ls : list label) (s : config Store Obj T) :
  run' ls (init st0) = Some s -> inv impl net c st0 s.
Proof.
  intros H. eapply (run_invariant (inv impl net c st0)); [|apply inv_init|exact H].
  intros l s1 s2. apply inv_step.
Qed.

Lemma step_race (l : label) (s s' : config Store Obj T) :
  step' l s = Some s' ->
  if is_race l then returned s = false /\ returned s' = true
  else main s' = main s.
Proof. intros H. unfold returned. step_cases H; try reflexivity; rewrite ?Heqc0; now split. Qed.

Lemma races_run (ls : list label) (s s' : config Store Obj T) :
  run' ls s = Some s' ->
  (if returned s' then 1 else 0)%nat = (races ls + (if returned s then 1 else 0))%nat.
Proof.
  revert s. induction ls as [|l ls IH]; intros s H; simpl in H.
  - injection H as <-. reflexivity.
  - destruct (step' l s) as [s1|] eqn:E; [|discriminate].
    rewrite (IH _ H). unfold races. simpl.
    pose proof (step_race _ _ _ E) as Hr. destruct (is_race l); simpl.
    + destruct Hr as [-> ->]. lia.
    + unfold returned. rewrite Hr. reflexivity.
Qed.

(** A goroutine that is over stays over. *)
Lemma step_exit (l : label) (s s' : config Store Obj T) :
  worker s = GoExit -> step' l s = Some s' -> worker s' = GoExit.
Proof. intros Hw H. step_cases H; congruence. Qed.

(** A goroutine waiting at its send, with the caller gone, does not move. *)
Lemma step_blocked (l : label) (s s' : config Store Obj T) v :
  returned s = true -> worker s = GoSending v -> step' l s = Some s' ->
  returned s' = true /\ worker s' = GoSending v.
Proof.
  unfold returned. intros Hr Hw H.
  step_cases H; try congruence; try (rewrite ?Heqc0 in *; split; congruence).
Qed.

Lemma run_blocked (ls : list label) (s s' : config Store Obj T) v :
  returned s = true -> worker s = GoSending v -> run' ls s = Some s' ->
  worker s' = GoSending v.
Proof.
  intros Hr Hw H.
  apply (run_invariant (fun s => returned s = true /\ worker s = GoSending v))
    with (ls := ls) (s := s); [|now split|exact H].
  intros l s1 s2 [H1 H2]. now apply step_blocked.
Qed.

(** The second select case: the caller has the zero value and
    [TimeoutError], the timeout has elapsed, and the goroutine is not over. *)
Lemma expire_run (st0 : Store) (ls : list label) (s : config Store Obj T) :
  run' ls (init st0) = Some s -> In Expire ls ->
  main s = Returned (call_zero c) (Some TimeoutError)
  /\ worker s <> GoExit /\ (call_timeout c <= clock s)%Z.
Proof.
  intros Hrun Hin. pose proof (inv_run _ _ _ Hrun) as [_ [_ Hm]].
  apply in_split in Hin as [l1 [l2 ->]].
  rewrite run_app in Hrun. destruct (run' l1 (init st0)) as [s1|]; [|discriminate].
  rewrite run_cons in Hrun. destruct (step' Expire s1) as [s2|] eqn:E; [|discriminate].
  assert (Hs2 : main s2 = Returned (call_zero c) (Some TimeoutError))
    by (step_cases E; reflexivity).
  rewrite (run_returned _ _ _ _ _ Hs2 Hrun) in Hm |- *.
  destruct Hm as [(_ & _ & He) | (Hw & _ & _ & Ht)]; [|now repeat split].
  destruct (anyError_values (call_any c (call_zero c))) as [Ha|Ha];
    rewrite Ha in He; discriminate.
Qed.

(** The first select case: the goroutine is over, and the caller has the
    value the goroutine read and its classification. *)
Lemma deliver_run (st0 : Store) (ls : list label) (s : config Store Obj T) :
  run' ls (init st0) = Some s -> In Deliver ls ->
  exists v, worker_value impl net c st0 = Some v
            /\ main s = Returned v (anyError (call_any c v))
            /\ worker s = GoExit.
Proof.
  intros Hrun Hin. pose proof (inv_run _ _ _ Hrun) as [Hw [_ Hm]].
  apply in_split in Hin as [l1 [l2 ->]].
  rewrite run_app in Hrun. destruct (run' l1 (init st0)) as [s1|]; [|discriminate].
  rewrite run_cons in Hrun. destruct (step' Deliver s1) as [s2|] eqn:E; [|discriminate].
  assert (Hs2 : worker s2 = GoExit) by (step_cases E; reflexivity).
  assert (Hx : worker s = GoExit).
  { apply (run_invariant (fun s => worker s = GoExit)) with (ls := l2) (s := s2);
      [|exact Hs2|exact Hrun].
    intros l a b. apply step_exit. }
  unfold worker_inv in Hw. rewrite Hx in Hw, Hm.
  destruct (main s) as [|v e]; [contradiction|].
  destruct Hm as [(_ & Hv & He) | (Hne & _)]; [|contradiction].
  exists v. unfold worker_value. rewrite Hw, Hv. subst. now repeat split.
Qed.

(** Every return is by one of the two cases. *)
Lemma outcome_run (st0 : Store) (ls : list label) (s : config Store Obj T) v e :
  run' ls (init st0) = Some s -> outcome s = Some (v, e) ->
  (worker_value impl net c st0 = Some v /\ e = anyError (call_any c v) /\ worker s = GoExit)
  \/ (v = call_zero c /\ e = Some TimeoutError /\ worker s <> GoExit
      /\ (call_timeout c <= clock s)%Z).
Proof.
  intros Hrun Ho. pose proof (inv_run _ _ _ Hrun) as [Hw [_ Hm]].
  unfold outcome in Ho. destruct (main s) as [|v' e']; [discriminate|].
  injection Ho as -> ->.
  destruct Hm as [(Hx & Hv & He) | (Hx & Hv & He & Ht)].
  - left. unfold worker_inv in Hw. rewrite Hx in Hw.
    unfold worker_value. rewrite Hw. subst v. now repeat split.
  - right. now repeat split.
Qed.

(** The caller can always return: the timer ends the wait. *)
Lemma timer_ends (st0 : Store) (ls : list label) (s : config Store Obj T) :
  (0 < call_timeout c)%Z ->
  run' ls (init st0) = Some s -> returned s = false ->
  exists s', run' [Tick (call_timeout c); Expire] s = Some s'
             /\ outcome s' = Some (call_zero c, Some TimeoutError).
Proof.
  intros Hpos Hrun Hr. pose proof (inv_run _ _ _ Hrun) as [_ [Hc _]].
  unfold returned in Hr. destruct (main s) eqn:Em; [|discriminate].
  apply Z.ltb_lt in Hpos.
  assert (Hle : (call_timeout c <=? clock s + call_timeout c)%Z = true)
    by (apply Z.leb_le; lia).
  rewrite run_cons. unfold step at 1. rewrite Hpos.
  rewrite run_cons. unfold step at 1. cbn [main clock]. rewrite Em, Hle.
  eexists. split; reflexivity.
Qed.

(** When the network answers, the goroutine's send can meet the caller. *)
Lemma worker_first (st0 st2 : Store) :
  fetched impl net c st0 = Some st2 ->
  exists s, run' [Args; Fetch; Read; Deliver] (init st0) = Some s
            /\ outcome s = Some (call_read c st2, anyError (call_any c (call_read c st2)))
            /\ store s = st2.
Proof.
  unfold fetched. intros H. unfold init.
  run_step. destruct (call_target c st0) as [obj st1].
  run_step. rewrite H. run_step. run_step.
  eexists. repeat split.
Qed.

(** The goroutine is not stopped by the caller's return: when the network
    answers, it runs on to its send, with the store [response] left. *)
Lemma worker_goes_on (st0 st2 : Store) (s : config Store Obj T) :
  inv impl net c st0 s -> fetched impl net c st0 = Some st2 -> worker s <> GoExit ->
  exists ls s', run' ls s = Some s'
                /\ worker s' = GoSending (call_read c st2)
                /\ store s' = st2 /\ main s' = main s.
Proof.
  unfold inv, worker_inv, fetched. intros [Hw _] Hf Hx.
  destruct (worker s) as [|url obj| |v|] eqn:Ew; [| | | |contradiction].
  - exists [Args; Fetch; Read]. run_step. rewrite Ew, Hw.
    destruct (call_target c st0) as [obj st1].
    run_step. rewrite Hf. run_step. eexists. repeat split.
  - destruct Hw as [-> Ht]. rewrite Ht in Hf.
    exists [Fetch; Read]. run_step. rewrite Ew, Hf. run_step.
    eexists. repeat split.
  - rewrite Hf in Hw. injection Hw as Hw.
    exists [Read]. run_step. rewrite Ew. eexists.
    repeat split; simpl; congruence.
  - destruct Hw as [Hw ->]. rewrite Hf in Hw. injection Hw as Hw.
    exists []. simpl. eexists. repeat split; congruence.
Qed.

End Machine.

(** The literal scenario: the builder returns [http://fake/geocode?q=Paris],
    the transport returns the body, and [Geocode] gives the coordinate and
    no error. *)
Example Geocode_Paris :
  call_url (Geocode (Fake.sharing Fake.paris_table) (Fake.g Fake.builder) "Paris")
  = "http://fake/geocode?q=Paris"
  /\ option_map outcome
       (run (Fake.sharing Fake.paris_table) (Fake.serve 200 Fake.paris_body)
          (Geocode (Fake.sharing Fake.paris_table) (Fake.g Fake.builder) "Paris")
          [Args; Fetch; Read; Deliver] (init [Fake.blank]))
     = Some (Some (Fake.Paris, None)).
Proof. split; reflexivity. Qed.

Example Geocode_hang :
  option_map outcome
    (run (Fake.sharing Fake.paris_table) Fake.hang
       (Geocode (Fake.sharing Fake.paris_table) (Fake.g Fake.builder) "Paris")
       [Args; Tick timeoutInSeconds; Expire] (init [Fake.blank]))
  = Some (Some (zeroLocation, Some TimeoutError)).
Proof. reflexivity. Qed.

(** A parser shared across requests keeps what it decoded last: after a
    request that filled it, a refused connection returns the old Location
    with no error. *)
Example Geocode_refused_after_success :
  option_map outcome
    (run (Fake.sharing Fake.paris_table) Fake.refuse
       (Geocode (Fake.sharing Fake.paris_table) (Fake.g Fake.builder) "Lyon")
       [Args; Fetch; Read; Deliver] (init [(Fake.Paris, "Paris, France")]))
  = Some (Some (Fake.Paris, None)).
Proof. reflexivity. Qed.

Example Geocode_refused :
  option_map outcome
    (run (Fake.sharing Fake.paris_table) Fake.refuse
       (Geocode (Fake.sharing Fake.paris_table) (Fake.g Fake.builder) "Paris")
       [Args; Fetch; Read; Deliver] (init [Fake.blank]))
  = Some (Some (zeroLocation, Some NoResultError)).
Proof. reflexivity. Qed.

(** * The claims *)

(** ** C1: whose Location [Geocode] returns *)

(** C1, as stated, fails: with a parser whose [ResponseObject] makes a fresh
    object for the request, the decode fills the fresh object with a
    non-zero Location, and [Geocode] still returns the zero Location of the
    facade's own parser, with [NoResultError]. *)
Lemma Geocode_ignores_fresh_target :
  let impl := Fake.allocating Fake.paris_table in
  let net := Fake.serve 200 Fake.paris_body in
  let g := Fake.g Fake.builder in
  let st2 := [Fake.blank; (Fake.Paris, "Paris, France")] in
  let s := mkConfig st2 GoExit (Returned zeroLocation (Some NoResultError)) 0 in
  ResponseObject impl (g_ResponseParser g) [Fake.blank]
  = (1%nat, [Fake.blank; Fake.blank])
  /\ response impl net (call_url (Geocode impl g "Paris")) 1%nat [Fake.blank; Fake.blank]
     = Some st2
  /\ Location_of impl 1%nat st2 = Fake.Paris
  /\ anyError (ALocation Fake.Paris) = None
  /\ run impl net (Geocode impl g "Paris") [Args; Fetch; Read; Deliver] (init [Fake.blank])
     = Some s
  /\ outcome s = Some (zeroLocation, Some NoResultError)
  /\ outcome s <> Some (Fake.Paris, None).
Proof. intros impl net g st2 s. repeat split. discriminate. Qed.

(** C1, amended: for every address A, if decoding the fetched payload into
    the object [ResponseObject] returned makes the Geocoder's own embedded
    parser expose a non-zero Location L (as it does when [ResponseObject]
    returns the embedded parser itself), then a call of [Geocode] on A can
    return (L, nil), does so whenever it takes the worker's value, and
    returns nothing else but the timeout: the Location returned is the one
    the facade's parser exposes after the decode. *)
Theorem Geocode_returns_facade_location
  {Store Obj : Type} (impl : ResponseParser Store Obj) (net : Net)
  (g : Geocoder Obj) (address : string) (st0 st1 st2 : Store) (obj : Obj)
  (L : Location) :
  ResponseObject impl (g_ResponseParser g) st0 = (obj, st1) ->
  response impl net (GeocodeUrl (g_EndpointBuilder g) (QueryEscape address)) obj st1
  = Some st2 ->
  Location_of impl (g_ResponseParser g) st2 = L ->
  ~ (is_zero (Lat L) /\ is_zero (Lng L)) ->
  (exists s, run impl net (Geocode impl g address) [Args; Fetch; Read; Deliver] (init st0)
             = Some s
             /\ outcome s = Some (L, None))
  /\ (forall ls s, run impl net (Geocode impl g address) ls (init st0) = Some s ->
                   In Deliver ls -> outcome s = Some (L, None))
  /\ (forall ls s v e, run impl net (Geocode impl g address) ls (init st0) = Some s ->
                       outcome s = Some (v, e) ->
                       (v, e) = (L, None) \/ (v, e) = (zeroLocation, Some TimeoutError)).
Proof.
  intros Hobj Hresp HL Hnz.
  assert (Hf : fetched impl net (Geocode impl g address) st0 = Some st2).
  { unfold fetched. cbn [Geocode call_target call_url]. now rewrite Hobj. }
  assert (Hv : worker_value impl net (Geocode impl g address) st0 = Some L).
  { unfold worker_value. rewrite Hf. cbn [Geocode call_read]. now rewrite HL. }
  apply anyError_Location_nonzero in Hnz.
  split; [|split].
  - destruct (worker_first impl net (Geocode impl g address) st0 st2 Hf)
      as (s & Hrun & Ho & _).
    exists s. split; [exact Hrun|].
    cbn [Geocode call_read call_any] in Ho. now rewrite HL, Hnz in Ho.
  - intros ls s Hrun Hin.
    destruct (deliver_run _ _ _ _ _ _ Hrun Hin) as (v & Hv' & Hm & _).
    rewrite Hv in Hv'. injection Hv' as <-.
    unfold outcome. rewrite Hm. cbn [Geocode call_any]. now rewrite Hnz.
  - intros ls s v e Hrun Ho.
    destruct (outcome_run _ _ _ _ _ _ _ _ Hrun Ho) as [(Hv' & -> & _) | (-> & -> & _)].
    + left. rewrite Hv in Hv'. injection Hv' as <-.
      cbn [Geocode call_any]. now rewrite Hnz.
    + right. reflexivity.
Qed.

(** The amended claim at a parser whose [ResponseObject] returns the
    receiver: the decode fills the facade's parser, and [Geocode] returns
    the decoded Location. *)
Lemma Geocode_returns_facade_location_witness :
  let impl := Fake.sharing Fake.paris_table in
  let net := Fake.serve 200 Fake.paris_body in
  let g := Fake.g Fake.builder in
  exists s, run impl net (Geocode impl g "Paris") [Args; Fetch; Read; Deliver]
              (init [Fake.blank]) = Some s
            /\ outcome s = Some (Fake.Paris, None).
Proof.
  intros impl net g.
  refine (proj1 (Geocode_returns_facade_location impl net g "Paris"
                   [Fake.blank] [Fake.blank] [(Fake.Paris, "Paris, France")]
                   0%nat Fake.Paris _ _ _ _)).
  - reflexivity.
  - reflexivity.
  - reflexivity.
  - intros [[H | H] _]; vm_compute in H; discriminate H.
Defined.

(** ** C2: the race *)

(** C2, as stated, fails in its second half: the network answers, the timer
    wins, the goroutine runs on to its send and stays there; no schedule
    brings it to its end. *)
Lemma abandoned_worker_never_completes :
  let impl := Fake.sharing Fake.paris_table in
  let net := Fake.serve 200 Fake.paris_body in
  let c := Geocode impl (Fake.g Fake.builder) "Paris" in
  let s := mkConfig [(Fake.Paris, "Paris, France")] (GoSending Fake.Paris)
             (Returned zeroLocation (Some TimeoutError)) timeoutInSeconds in
  run impl net c [Tick timeoutInSeconds; Expire; Args; Fetch; Read] (init [Fake.blank])
  = Some s
  /\ ~ (exists ls s', run impl net c ls s = Some s' /\ worker s' = GoExit).
Proof.
  intros impl net c s. split; [reflexivity|].
  intros (ls & s' & Hrun & Hx).
  assert (Hw : worker s' = GoSending Fake.Paris)
    by (apply (run_blocked impl net c ls s s' Fake.Paris); auto).
  rewrite Hw in Hx. discriminate.
Qed.

(** C2, amended: for every call to [Geocode] or [ReverseGeocode], the caller
    observes exactly one of the two race outcomes, the worker's value or the
    timeout. When the timeout wins, the worker goroutine is not cancelled:
    it runs fetch-and-decode on in the background and reads its value, but
    the value is never received: the goroutine stays blocked at its send on
    the unbuffered channel and never completes. *)
Theorem select_takes_one_case
  {Store Obj : Type} (impl : ResponseParser Store Obj) (net : Net)
  (g : Geocoder Obj) (address : string) (lat lng : float) (st0 : Store) :
  race_law impl net (Geocode impl g address) st0
  /\ race_law impl net (ReverseGeocode impl g lat lng) st0.
Proof.
  assert (Hlaw : forall (T : Type) (c : call Store Obj T), race_law impl net c st0).
  { intros T c.
    unfold race_law. split; [|split; [|split]].
    - intros ls s Hrun. pose proof (races_run _ _ _ _ _ _ Hrun) as H.
      unfold returned at 2 in H. simpl in H. lia.
    - intros ls s Hrun Hd.
      destruct (deliver_run _ _ _ _ _ _ Hrun Hd) as (v & _ & _ & Hx).
      split; [exact Hx|]. intros He.
      destruct (expire_run _ _ _ _ _ _ Hrun He) as (_ & Hne & _). contradiction.
    - intros ls s Hrun He.
      destruct (expire_run _ _ _ _ _ _ Hrun He) as (Hm & Hne & _).
      split; [|exact Hne]. unfold outcome. now rewrite Hm.
    - intros ls s st2 Hrun He Hf.
      destruct (expire_run _ _ _ _ _ _ Hrun He) as (Hm & Hne & _).
      destruct (worker_goes_on impl net c st0 st2 s (inv_run _ _ _ _ _ _ Hrun) Hf Hne)
        as (ls' & s' & Hrun' & Hw' & _ & Hm').
      exists ls', s'. split; [exact Hrun'|]. split; [exact Hw'|].
      assert (Ho : outcome s' = outcome s) by (unfold outcome; now rewrite Hm').
      split; [exact Ho|]. intros ls'' s'' Hrun''.
      assert (Hr : returned s' = true) by (unfold returned; now rewrite Hm', Hm).
      split; [now apply (run_blocked impl net c ls'' s' s'' _ Hr Hw')|].
      rewrite <- Ho. rewrite Hm in Hm'.
      unfold outcome. now rewrite (run_returned _ _ _ _ _ _ _ _ Hm' Hrun''), Hm'. }
  split; apply Hlaw.
Qed.

(** The amended claim at two schedules of one call: the worker first, and
    the timer first with the worker going on behind it; each takes one
    select case. *)
Lemma select_takes_one_case_witness :
  let impl := Fake.sharing Fake.paris_table in
  let net := Fake.serve 200 Fake.paris_body in
  let c := Geocode impl (Fake.g Fake.builder) "Paris" in
  let st2 := [(Fake.Paris, "Paris, France")] in
  (run impl net c [Args; Fetch; Read; Deliver; Tick 1] (init [Fake.blank])
   = Some (mkConfig st2 GoExit (Returned Fake.Paris None) 1)
   /\ races [Args; Fetch; Read; Deliver; Tick 1] = 1%nat)
  /\ (run impl net c [Tick timeoutInSeconds; Expire; Args; Fetch; Read] (init [Fake.blank])
      = Some (mkConfig st2 (GoSending Fake.Paris)
                (Returned zeroLocation (Some TimeoutError)) timeoutInSeconds)
      /\ races [Tick timeoutInSeconds; Expire; Args; Fetch; Read] = 1%nat).
Proof.
  intros impl net c st2.
  pose proof (proj1 (proj1 (select_takes_one_case impl net (Fake.g Fake.builder)
                              "Paris" 0%float 0%float [Fake.blank]))) as H.
  split; (split; [reflexivity|]).
  - exact (H [Args; Fetch; Read; Deliver; Tick 1]
             (mkConfig st2 GoExit (Returned Fake.Paris None) 1) eq_refl).
  - exact (H [Tick timeoutInSeconds; Expire; Args; Fetch; Read]
             (mkConfig st2 (GoSending Fake.Paris)
                (Returned zeroLocation (Some TimeoutError)) timeoutInSeconds) eq_refl).
Defined.

(** ** C3: what the Endpoint Builder receives *)

(** C3, as stated, fails: with a builder that hands back what it is given,
    the goroutine of [Geocode] on the address [a b] calls [response] with
    [a+b]; the builder received the escaped address, not the caller's
    string. *)
Lemma Geocode_builder_gets_escaped_address :
  let impl := Fake.sharing Fake.paris_table in
  let net := Fake.serve 200 Fake.paris_body in
  run impl net (Geocode impl (Fake.g Fake.echo) "a b") [Args] (init [Fake.blank])
  = Some (mkConfig [Fake.blank] (GoCalling "a+b" 0%nat) Selecting 0)
  /\ GeocodeUrl Fake.echo "a b" = "a b"
  /\ "a+b" <> "a b".
Proof. intros impl net. repeat split. discriminate. Qed.

(** C3, amended: for every address A, [Geocode] passes [QueryEscape A] to
    the Endpoint Builder's geocode-URL function, and the URL it calls
    [response] with is what the builder makes of it. The builder receives
    the caller's own string exactly when every byte of A is unreserved (a
    letter, a digit, [-], [_], [.] or [~]). *)
Theorem Geocode_escapes_address
  {Store Obj : Type} (impl : ResponseParser Store Obj) (net : Net)
  (g : Geocoder Obj) (address : string) (st0 : Store) :
  (forall ls s url obj,
     run impl net (Geocode impl g address) ls (init st0) = Some s ->
     worker s = GoCalling url obj ->
     url = GeocodeUrl (g_EndpointBuilder g) (QueryEscape address))
  /\ (exists s obj,
        run impl net (Geocode impl g address) [Args] (init st0) = Some s
        /\ worker s
           = GoCalling (GeocodeUrl (g_EndpointBuilder g) (QueryEscape address)) obj)
  /\ (QueryEscape address = address <-> unreserved address = true).
Proof.
  split; [|split; [|apply escape_fixed]].
  - intros ls s url obj Hrun Hw.
    destruct (inv_run _ _ _ _ _ _ Hrun) as [Hinv _].
    unfold worker_inv in Hinv. rewrite Hw in Hinv. now destruct Hinv as [-> _].
  - unfold init. run_step. cbn [Geocode call_target call_url].
    destruct (ResponseObject impl (g_ResponseParser g) st0) as [obj st1].
    eexists. exists obj. split; reflexivity.
Qed.

(** The amended claim at an address with a space and a comma. *)
Lemma Geocode_escapes_address_witness :
  let impl := Fake.sharing Fake.paris_table in
  let net := Fake.serve 200 Fake.paris_body in
  run impl net (Geocode impl (Fake.g Fake.builder) "Paris, France") [Args]
    (init [Fake.blank])
  = Some (mkConfig [Fake.blank]
            (GoCalling "http://fake/geocode?q=Paris%2C+France" 0%nat) Selecting 0)
  /\ "http://fake/geocode?q=Paris%2C+France"
     = GeocodeUrl Fake.builder (QueryEscape "Paris, France").
Proof.
  intros impl net. split; [reflexivity|].
  exact (proj1 (Geocode_escapes_address impl net (Fake.g Fake.builder)
                  "Paris, France" [Fake.blank])
           [Args]
           (mkConfig [Fake.blank]
              (GoCalling "http://fake/geocode?q=Paris%2C+France" 0%nat) Selecting 0)
           "http://fake/geocode?q=Paris%2C+France" 0%nat eq_refl eq_refl).
Defined.

(** ** C4: the result classifier *)

(** C4: [anyError] gives [NoResultError] for a Location exactly when both
    coordinates are zero, for a string exactly when it is empty, and no
    error in every other case; a [Geocode] call that takes the worker's
    value from a parser that exposes no non-zero Location returns a zero
    Location with [NoResultError]. *)
Theorem anyError_classifies
  {Store Obj : Type} (impl : ResponseParser Store Obj) (net : Net)
  (g : Geocoder Obj) (address : string) (st0 : Store) :
  (forall l, anyError (ALocation l) = Some NoResultError
             <-> is_zero (Lat l) /\ is_zero (Lng l))
  /\ (forall l, anyError (ALocation l) = None
                <-> ~ (is_zero (Lat l) /\ is_zero (Lng l)))
  /\ (forall a, anyError (AString a) = Some NoResultError <-> a = EmptyString)
  /\ (forall a, anyError (AString a) = None <-> a <> EmptyString)
  /\ anyError AOther = None
  /\ ((forall st2, fetched impl net (Geocode impl g address) st0 = Some st2 ->
                   is_zero (Lat (Location_of impl (g_ResponseParser g) st2))
                   /\ is_zero (Lng (Location_of impl (g_ResponseParser g) st2))) ->
      forall ls s,
        run impl net (Geocode impl g address) ls (init st0) = Some s ->
        In Deliver ls ->
        exists st2,
          fetched impl net (Geocode impl g address) st0 = Some st2
          /\ outcome s
             = Some (Location_of impl (g_ResponseParser g) st2, Some NoResultError)
          /\ Location_eqb (Location_of impl (g_ResponseParser g) st2) zeroLocation
             = true).
Proof.
  split; [exact anyError_Location_zero|].
  split; [exact anyError_Location_nonzero|].
  split; [exact anyError_String_empty|].
  split; [exact anyError_String_nonempty|].
  split; [reflexivity|].
  - intros Hzero ls s Hrun Hin.
    destruct (deliver_run _ _ _ _ _ _ Hrun Hin) as [v [Hv [Hm _]]].
    unfold worker_value in Hv.
    destruct (fetched _ _ _ st0) as [st2|] eqn:Ef; [|discriminate].
    injection Hv as <-. cbn [Geocode call_read call_any] in Hm.
    exists st2. destruct (Hzero st2 eq_refl) as [Hlat Hlng].
    split; [reflexivity|]. split.
    + unfold outcome. rewrite Hm. f_equal. f_equal. now apply anyError_Location_zero.
    + unfold Location_eqb. cbn [zeroLocation Lat Lng].
      apply andb_true_iff. split; now apply eqb_zero.
Qed.

(** A parser that decodes nothing, behind a network that answers: the
    worker's value is the zero Location, classified as no result. *)
Lemma anyError_classifies_witness :
  let impl := Fake.sharing [] in
  let net := Fake.serve 200 "{}" in
  let c := Geocode impl (Fake.g Fake.builder) "Nowhere" in
  let s := mkConfig [Fake.blank] GoExit (Returned zeroLocation (Some NoResultError)) 0 in
  run impl net c [Args; Fetch; Read; Deliver] (init [Fake.blank]) = Some s
  /\ exists st2,
       fetched impl net c [Fake.blank] = Some st2
       /\ outcome s = Some (Location_of impl 0%nat st2, Some NoResultError)
       /\ Location_eqb (Location_of impl 0%nat st2) zeroLocation = true.
Proof.
  intros impl net c s. split; [reflexivity|].
  refine (proj2 (proj2 (proj2 (proj2 (proj2
            (anyError_classifies impl net (Fake.g Fake.builder) "Nowhere" [Fake.blank])))))
            _ [Args; Fetch; Read; Deliver] s _ _).
  - intros st2 [= <-]. split; left; reflexivity.
  - reflexivity.
  - right. right. right. left. reflexivity.
Defined.

(** The point at 0 north, 0 east, and its negative zeros, are no result;
    a NaN coordinate is not zero. *)
Example anyError_null_island :
  anyError (ALocation (mkLocation (-0)%float 0%float)) = Some NoResultError
  /\ anyError (ALocation (mkLocation nan nan)) = None
  /\ anyError (ALocation (mkLocation 0%float 2.3522%float)) = None.
Proof. repeat split. Qed.

(** ** C5: the timeout branch *)

(** C5: when the timer's case of the select is the one taken, [Geocode]
    returns [Location{}] and [ReverseGeocode] returns the empty string, both
    with [TimeoutError]; both wait with the same argument of [time.After],
    eight seconds, and neither returns the timeout before it has elapsed. *)
Theorem timeout_returns_zero_value
  {Store Obj : Type} (impl : ResponseParser Store Obj) (net : Net)
  (g : Geocoder Obj) (address : string) (lat lng : float) (st0 : Store) :
  call_timeout (Geocode impl g address) = (8 * Second)%Z
  /\ call_timeout (ReverseGeocode impl g lat lng) = (8 * Second)%Z
  /\ (forall ls s,
        run impl net (Geocode impl g address) ls (init st0) = Some s ->
        In Expire ls ->
        outcome s = Some (zeroLocation, Some TimeoutError)
        /\ (8 * Second <= clock s)%Z)
  /\ (forall ls s,
        run impl net (ReverseGeocode impl g lat lng) ls (init st0) = Some s ->
        In Expire ls ->
        outcome s = Some (EmptyString, Some TimeoutError)
        /\ (8 * Second <= clock s)%Z)
  /\ (forall ls s,
        run impl net (Geocode impl g address) ls (init st0) = Some s ->
        outcome s = None ->
        exists s', run impl net (Geocode impl g address)
                     [Tick timeoutInSeconds; Expire] s = Some s'
                   /\ outcome s' = Some (zeroLocation, Some TimeoutError))
  /\ (forall ls s,
        run impl net (ReverseGeocode impl g lat lng) ls (init st0) = Some s ->
        outcome s = None ->
        exists s', run impl net (ReverseGeocode impl g lat lng)
                     [Tick timeoutInSeconds; Expire] s = Some s'
                   /\ outcome s' = Some (EmptyString, Some TimeoutError)).
Proof.
  assert (Hwait : forall T (s : config Store Obj T), outcome s = None -> returned s = false).
  { intros T s. unfold outcome, returned. now destruct (main s). }
  split; [reflexivity|]. split; [reflexivity|].
  split; [|split; [|split]].
  - intros ls s Hrun Hin.
    destruct (expire_run _ _ _ _ _ _ Hrun Hin) as (Hm & _ & Ht).
    unfold outcome. rewrite Hm. split; [reflexivity | exact Ht].
  - intros ls s Hrun Hin.
    destruct (expire_run _ _ _ _ _ _ Hrun Hin) as (Hm & _ & Ht).
    unfold outcome. rewrite Hm. split; [reflexivity | exact Ht].
  - intros ls s Hrun Ho.
    apply (timer_ends impl net (Geocode impl g address) st0 ls s); auto. reflexivity.
  - intros ls s Hrun Ho.
    apply (timer_ends impl net (ReverseGeocode impl g lat lng) st0 ls s); auto. reflexivity.
Qed.

(** A server that never answers: [Geocode] returns the timeout, once the
    eight seconds are over. *)
Lemma timeout_returns_zero_value_witness :
  let impl := Fake.sharing Fake.paris_table in
  let c := Geocode impl (Fake.g Fake.builder) "Paris" in
  let s := mkConfig [Fake.blank] (GoCalling "http://fake/geocode?q=Paris" 0%nat)
             (Returned zeroLocation (Some TimeoutError)) timeoutInSeconds in
  run impl Fake.hang c [Args; Tick timeoutInSeconds; Expire] (init [Fake.blank]) = Some s
  /\ outcome s = Some (zeroLocation, Some TimeoutError)
  /\ (8 * Second <= clock s)%Z.
Proof.
  intros impl c s. split; [reflexivity|].
  refine (proj1 (proj2 (proj2 (timeout_returns_zero_value impl Fake.hang
            (Fake.g Fake.builder) "Paris" 0%float 0%float [Fake.blank])))
            [Args; Tick timeoutInSeconds; Expire] s eq_refl _).
  right. right. left. reflexivity.
Defined.

(** The same for [ReverseGeocode]. *)
Example ReverseGeocode_hang :
  option_map outcome
    (run (Fake.sharing Fake.paris_table) Fake.hang
       (ReverseGeocode (Fake.sharing Fake.paris_table) (Fake.g Fake.builder)
          48.8566%float 2.3522%float)
       [Args; Tick timeoutInSeconds; Expire] (init [Fake.blank]))
  = Some (Some (EmptyString, Some TimeoutError)).
Proof. reflexivity. Qed.

(** The timer's case cannot be taken before eight seconds. *)
Example Geocode_no_early_timeout :
  run (Fake.sharing Fake.paris_table) Fake.hang
    (Geocode (Fake.sharing Fake.paris_table) (Fake.g Fake.builder) "Paris")
    [Args; Tick (timeoutInSeconds - 1); Expire] (init [Fake.blank])
  = None.
Proof. reflexivity. Qed.

(** ** C6: the errors that reach the caller *)

(** C6: whatever the network and the parser do, and however the goroutine,
    the clock and the select interleave, the error [Geocode] or
    [ReverseGeocode] returns is nil, [TimeoutError] or [NoResultError]. *)
Theorem public_errors
  {Store Obj : Type} (impl : ResponseParser Store Obj) (net : Net)
  (g : Geocoder Obj) (address : string) (lat lng : float) (st0 : Store) :
  (forall ls s v e,
     run impl net (Geocode impl g address) ls (init st0) = Some s ->
     outcome s = Some (v, e) ->
     e = None \/ e = Some TimeoutError \/ e = Some NoResultError)
  /\ (forall ls s v e,
        run impl net (ReverseGeocode impl g lat lng) ls (init st0) = Some s ->
        outcome s = Some (v, e) ->
        e = None \/ e = Some TimeoutError \/ e = Some NoResultError).
Proof.
  split; intros ls s v e Hrun Ho;
    destruct (outcome_run _ _ _ _ _ _ _ _ Hrun Ho) as [(_ & -> & _) | (_ & -> & _)];
    try (right; left; reflexivity);
    match goal with
    | |- anyError ?x = _ \/ _ => destruct (anyError_values x) as [E|E]; rewrite E
    end; tauto.
Qed.

(** A transport error does not reach the caller: a refused connection is
    reported as no result. *)
Lemma public_errors_witness :
  let impl := Fake.sharing Fake.paris_table in
  let c := Geocode impl (Fake.g Fake.builder) "Paris" in
  let s := mkConfig [Fake.blank] GoExit (Returned zeroLocation (Some NoResultError)) 0 in
  run impl Fake.refuse c [Args; Fetch; Read; Deliver] (init [Fake.blank]) = Some s
  /\ (Some NoResultError = None \/ Some NoResultError = Some TimeoutError
      \/ Some NoResultError = Some NoResultError).
Proof.
  intros impl c s. split; [reflexivity|].
  exact (proj1 (public_errors impl Fake.refuse (Fake.g Fake.builder) "Paris"
                  0%float 0%float [Fake.blank])
           [Args; Fetch; Read; Deliver] s zeroLocation (Some NoResultError)
           eq_refl eq_refl).
Defined.

(** ** C7: the array wrapper *)

(** C7: whatever the network answers, putting the body P between [[] and
    []] leaves the decode target, and the whole store, as the body P itself
    does: the decoder is handed the same text; and when P starts with an
    opening brace and ends with a closing one, that text is P. *)
Theorem response_unwraps_array
  {Store Obj : Type} (impl : ResponseParser Store Obj) (net : Net)
  (url : string) (obj : Obj) (st : Store) :
  response impl (map_responses wrap_body net) url obj st = response impl net url obj st
  /\ (forall P, Trim ("[" ++ P ++ "]") " []" = Trim P " []")
  /\ (forall P, first_byte P = Some "{"%char -> last_byte P = Some "}"%char ->
                Trim ("[" ++ P ++ "]") " []" = P).
Proof.
  assert (Hwrap : forall P, Trim ("[" ++ P ++ "]") " []" = Trim P " []")
    by (intros P; now apply Trim_runs).
  split; [|split; [exact Hwrap|]].
  - unfold response. cbn [map_responses NewRequest Do].
    destruct (NewRequest net "GET" url) as [req|e]; [|reflexivity].
    destruct (Do net req) as [[resp|e]|]; try reflexivity.
    unfold ReadAll, wrap_body. cbn [Body].
    destruct (Body resp) as [[data [e|]]|]; try reflexivity.
    now rewrite Hwrap.
  - intros P Ha Hb. rewrite Hwrap. now apply (Trim_id " []" P _ _ Ha Hb).
Qed.

(** C7 at the payload of the round-trip test: the wrapped object is
    trimmed to the object. *)
Lemma response_unwraps_array_witness :
  Trim ("[" ++ object2 "lat" "1.0" "lng" "2.0" ++ "]") " []"
  = object2 "lat" "1.0" "lng" "2.0".
Proof.
  exact (proj2 (proj2 (response_unwraps_array (Fake.sharing []) Fake.hang
                         EmptyString 0%nat [Fake.blank]))
           (object2 "lat" "1.0" "lng" "2.0") eq_refl eq_refl).
Defined.

(** The two payloads of the round-trip test decode alike. *)
Example response_wrapped_object :
  let impl := Fake.sharing [(object2 "lat" "1.0" "lng" "2.0",
                              (mkLocation 1%float 2%float, EmptyString))] in
  response impl (Fake.serve 200 ("[" ++ object2 "lat" "1.0" "lng" "2.0" ++ "]"))
    "http://fake/geocode?q=x" 0%nat [Fake.blank]
  = Some [(mkLocation 1%float 2%float, EmptyString)]
  /\ response impl (Fake.serve 200 (object2 "lat" "1.0" "lng" "2.0"))
       "http://fake/geocode?q=x" 0%nat [Fake.blank]
     = Some [(mkLocation 1%float 2%float, EmptyString)].
Proof. split; reflexivity. Qed.

(** ** C8: failures inside fetch-and-decode *)

(** C8, as stated, fails: the answer is read, its trimmed body is
    well-formed, the decoding of the provider's type panics on it, and
    [response] ends by that panic: it is not swallowed. *)
Lemma decode_panic_leaves_response :
  Trim "[{}]" " []" = "{}"
  /\ json.checkValid "{}" = true
  /\ Double.explosive "{}" 0%nat [Fake.blank] = Some [Fake.blank]
  /\ response_ending (Fake.sharing Fake.paris_table) Double.explosive
       (Fake.serve 200 "[{}]") "http://fake/geocode?q=Paris" 0%nat [Fake.blank]
     = Panics [Fake.blank]
  /\ forall st : Fake.heap, Panics [Fake.blank] <> Returns st.
Proof. repeat split. discriminate. Qed.

(** C8, amended: [response] swallows every error: when the request cannot
    be built, the transport fails, the read of the body fails or the
    trimmed body is not well-formed, it returns with the store as it was,
    and when the decoding reports an error it returns with the store the
    decoding left; it has no result and hands no error on, under any
    network condition. It does not recover a panic: it ends by a panic
    exactly when the body is read, its trimmed text is well-formed and the
    decoding panics on it, and no other step of it panics. It does not end
    exactly when the request is never answered. When it returns, the store
    is as it was or the one [json.Unmarshal] left: nothing but the decode
    changes it. *)
Theorem response_swallows_errors
  {Store Obj : Type} (impl : ResponseParser Store Obj) (panics : hazard Store Obj)
  (net : Net) (url : string) (obj : Obj) (st : Store) :
  (undecoded net url -> response_ending impl panics net url obj st = Returns st)
  /\ (forall req resp data st' err,
        NewRequest net "GET" url = Ok req -> Do net req = Some (Ok resp) ->
        ReadAll resp = Some (data, None) ->
        panics (Trim data " []") obj st = None ->
        Unmarshal impl (Trim data " []") obj st = (st', err) ->
        response_ending impl panics net url obj st = Returns st')
  /\ (forall st',
        response_ending impl panics net url obj st = Panics st'
        <-> exists req resp data,
              NewRequest net "GET" url = Ok req /\ Do net req = Some (Ok resp)
              /\ ReadAll resp = Some (data, None)
              /\ json.checkValid (Trim data " []") = true
              /\ panics (Trim data " []") obj st = Some st')
  /\ (response_ending impl panics net url obj st = Blocks <-> never_answers net url)
  /\ (forall st',
        response_ending impl panics net url obj st = Returns st' ->
        st' = st \/ exists data, st' = fst (Unmarshal impl (Trim data " []") obj st))
  /\ ((forall data o s, panics data o s = None) ->
      response_ending impl panics net url obj st
      = match response impl net url obj st with
        | Some st' => Returns st'
        | None => Blocks
        end).
Proof.
  unfold response_ending, response, Unmarshal_ending, Unmarshal, undecoded, never_answers.
  split; [|split; [|split; [|split; [|split]]]].
  - intros [(e & ->) | [(req & e & -> & ->) | [(req & resp & data & e & -> & -> & ->)
                       | (req & resp & data & -> & -> & -> & ->)]]]; reflexivity.
  - intros req resp data st' err -> -> -> Hp.
    destruct (json.checkValid (Trim data " []")).
    + rewrite Hp. intros ->. reflexivity.
    + now intros [= <- _].
  - intros st'. split.
    + destruct (NewRequest net "GET" url) as [req|e]; [|discriminate].
      destruct (Do net req) as [[resp|e]|] eqn:Ed; try discriminate.
      destruct (ReadAll resp) as [[data [e|]]|] eqn:Er; try discriminate.
      destruct (json.checkValid (Trim data " []")) eqn:Ev; [|discriminate].
      destruct (panics (Trim data " []") obj st) as [st2|] eqn:Ep; [|discriminate].
      intros [= <-]. exists req, resp, data. now repeat split.
    + intros (req & resp & data & -> & -> & -> & -> & ->). reflexivity.
  - split.
    + destruct (NewRequest net "GET" url) as [req|e]; [|discriminate].
      intros H. exists req. split; [reflexivity|].
      destruct (Do net req) as [[resp|e]|]; [|discriminate|now left].
      right. exists resp. split; [reflexivity|].
      destruct (ReadAll resp) as [[data [e|]]|]; [discriminate| |reflexivity].
      destruct (json.checkValid (Trim data " []")); [|discriminate].
      destruct (panics (Trim data " []") obj st); discriminate.
    + intros (req & -> & [-> | (resp & -> & ->)]); reflexivity.
  - intros st'.
    destruct (NewRequest net "GET" url) as [req|e]; [|intros [= <-]; now left].
    destruct (Do net req) as [[resp|e]|]; [|intros [= <-]; now left|discriminate].
    destruct (ReadAll resp) as [[data [e|]]|]; [intros [= <-]; now left| |discriminate].
    destruct (json.checkValid (Trim data " []")) eqn:Ev.
    + destruct (panics (Trim data " []") obj st); [discriminate|].
      intros [= <-]. right. exists data. now rewrite Ev.
    + intros [= <-]. now left.
  - intros Hnone.
    destruct (NewRequest net "GET" url) as [req|e]; [|reflexivity].
    destruct (Do net req) as [[resp|e]|]; try reflexivity.
    destruct (ReadAll resp) as [[data [e|]]|]; try reflexivity.
    rewrite Hnone. now destruct (json.checkValid (Trim data " []")).
Qed.

(** The amended claim at three networks: a refused connection and a body
    that is no JSON leave the store as it was, whatever the decoding would
    do; a body on which the decoding panics ends [response] by the
    panic. *)
Lemma response_swallows_errors_witness :
  let impl := Fake.sharing Fake.paris_table in
  let url := "http://fake/geocode?q=Paris" in
  response_ending impl Double.explosive Fake.refuse url 0%nat [Fake.blank]
  = Returns [Fake.blank]
  /\ response_ending impl Double.explosive (Fake.serve 502 "<html>Bad Gateway</html>")
       url 0%nat [Fake.blank]
     = Returns [Fake.blank]
  /\ response_ending impl Double.explosive (Fake.serve 200 "[{}]") url 0%nat [Fake.blank]
     = Panics [Fake.blank].
Proof.
  intros impl url. split; [|split].
  - apply (proj1 (response_swallows_errors impl Double.explosive Fake.refuse url
                    0%nat [Fake.blank])).
    right. left. exists {| Method := "GET"; URL := url |}.
    exists (LibError "connection refused"). split; reflexivity.
  - apply (proj1 (response_swallows_errors impl Double.explosive
                    (Fake.serve 502 "<html>Bad Gateway</html>") url 0%nat [Fake.blank])).
    right. right. right. exists {| Method := "GET"; URL := url |}.
    exists {| StatusCode := 502; Body := Some ("<html>Bad Gateway</html>", None) |}.
    exists "<html>Bad Gateway</html>". repeat split.
  - apply (proj1 (proj2 (proj2 (response_swallows_errors impl Double.explosive
                                   (Fake.serve 200 "[{}]") url 0%nat [Fake.blank])))).
    exists {| Method := "GET"; URL := url |}.
    exists {| StatusCode := 200; Body := Some ("[{}]", None) |}.
    exists "[{}]". repeat split.
Defined.

(** ** C9: what the trim removes *)

(** C9, as stated, fails: a body that wraps the provider's object in two
    pairs of brackets is trimmed down to the object, [json.Unmarshal]
    reports no error and the decode target holds a non-zero Location; and
    the closing bracket of an array followed by a line feed is not
    stripped. *)
Lemma doubly_wrapped_body_decodes :
  let impl := Fake.sharing Fake.paris_table in
  let body := "[[" ++ Fake.paris_body ++ "]]" in
  let st' := [(Fake.Paris, "Paris, France")] in
  Trim body " []" = Fake.paris_body
  /\ Unmarshal impl (Trim body " []") 0%nat [Fake.blank] = (st', None)
  /\ response impl (Fake.serve 200 body) "http://fake/geocode?q=Paris" 0%nat [Fake.blank]
     = Some st'
  /\ Location_of impl 0%nat st' = Fake.Paris
  /\ anyError (ALocation Fake.Paris) = None
  /\ Trim ("[1,2]" ++ nl) " []" = "1,2]" ++ nl.
Proof. intros impl body st'. repeat split. Qed.

(** C9, amended: the trim before the decode removes the whole leading run
    and the whole trailing run of spaces and square brackets, whatever the
    structure of the body and the balance of its brackets, and nothing
    else; the decoder is handed the body without these two runs. So a body
    between any such runs is decoded as the body itself is. And a body made
    of such a run, a well-formed JSON value that starts with neither a
    space nor a bracket, a comma and more (an array of several elements
    with its first element an object, a string, a number or a literal) is
    trimmed to a text that is not well-formed: [json.Unmarshal] returns a
    syntax error, which is dropped, and the decode target keeps the state
    it had. *)
Theorem trim_strips_bracket_runs
  {Store Obj : Type} (impl : ResponseParser Store Obj) (net : Net)
  (url : string) (obj : Obj) (st : Store) (body : string) :
  (exists pre post,
     body = pre ++ Trim body " []" ++ post
     /\ all_in " []" pre = true /\ all_in " []" post = true)
  /\ (forall c, first_byte (Trim body " []") = Some c -> contains " []" c = false)
  /\ (forall c, last_byte (Trim body " []") = Some c -> contains " []" c = false)
  /\ (forall pre post,
        all_in " []" pre = true -> all_in " []" post = true ->
        Trim (pre ++ body ++ post) " []" = Trim body " []")
  /\ (forall req resp,
        NewRequest net "GET" url = Ok req -> Do net req = Some (Ok resp) ->
        ReadAll resp = Some (body, None) ->
        response impl net url obj st
        = Some (fst (Unmarshal impl (Trim body " []") obj st)))
  /\ (forall pre a e rest,
        all_in " []" pre = true -> contains " []" a = false ->
        json.checkValid (String a e) = true ->
        body = pre ++ String a e ++ String "," rest ->
        Trim body " []" = String a e ++ String "," (trimRightASCII rest " []")
        /\ json.checkValid (Trim body " []") = false
        /\ Unmarshal impl (Trim body " []") obj st
           = (st, Some (LibError "json: syntax error"))).
Proof.
  split; [apply Trim_split|].
  split; [intros c; apply Trim_first|].
  split; [intros c; apply Trim_last|].
  split; [intros pre post; apply Trim_runs|].
  split.
  - intros req resp Hreq Hdo Hread. unfold response. now rewrite Hreq, Hdo, Hread.
  - intros pre a e rest Hpre Ha Hvalid ->.
    assert (Ht : Trim (pre ++ String a e ++ String "," rest) " []"
                 = String a e ++ String "," (trimRightASCII rest " []"))
      by (now apply Trim_run_text).
    assert (Hbad : json.checkValid (Trim (pre ++ String a e ++ String "," rest) " []")
                   = false)
      by (rewrite Ht; now apply checkValid_comma).
    split; [exact Ht|]. split; [exact Hbad|].
    unfold Unmarshal. now rewrite Hbad.
Qed.

(** The amended claim at an array of two objects: the decoder is handed
    the two objects and the comma between them, which is no document, and
    the target stays as it was. *)
Lemma trim_strips_bracket_runs_witness :
  let impl := Fake.sharing Fake.paris_table in
  let body := "[" ++ Fake.paris_body ++ "," ++ Fake.paris_body ++ "]" in
  Trim body " []" = Fake.paris_body ++ "," ++ Fake.paris_body
  /\ json.checkValid (Trim body " []") = false
  /\ Unmarshal impl (Trim body " []") 0%nat [Fake.blank]
     = ([Fake.blank], Some (LibError "json: syntax error")).
Proof.
  intros impl body.
  exact (proj2 (proj2 (proj2 (proj2 (proj2
           (trim_strips_bracket_runs impl Fake.hang EmptyString 0%nat
              [Fake.blank] body)))))
           "[" "{"%char
           (dq ++ "lat" ++ dq ++ ":48.8566," ++ dq ++ "lng" ++ dq ++ ":2.3522}")
           (Fake.paris_body ++ "]") eq_refl eq_refl eq_refl eq_refl).
Defined.

(** ** C10: the status code *)

(** C10: [response] does not look at the status code: under any status the
    store it leaves is the same, and every answer whose body is read is
    trimmed and decoded into the target. *)
Theorem response_ignores_status
  {Store Obj : Type} (impl : ResponseParser Store Obj) (net : Net)
  (url : string) (obj : Obj) (st : Store) (status : Z) :
  response impl (map_responses (with_status status) net) url obj st
  = response impl net url obj st
  /\ (forall req resp data,
        NewRequest net "GET" url = Ok req -> Do net req = Some (Ok resp) ->
        ReadAll resp = Some (data, None) ->
        response impl net url obj st
        = Some (fst (Unmarshal impl (Trim data " []") obj st))).
Proof.
  unfold response. split.
  - cbn [map_responses NewRequest Do].
    destruct (NewRequest net "GET" url) as [req|e]; [|reflexivity].
    destruct (Do net req) as [[resp|e]|]; reflexivity.
  - intros req resp data -> -> ->. reflexivity.
Qed.

(** C10 at a 500 answer whose body has the provider's shape: the body is
    decoded into the target. *)
Lemma response_ignores_status_witness :
  response (Fake.sharing Fake.paris_table) (Fake.serve 500 Fake.paris_body)
    "http://fake/geocode?q=Paris" 0%nat [Fake.blank]
  = Some [(Fake.Paris, "Paris, France")].
Proof.
  exact (proj2 (response_ignores_status (Fake.sharing Fake.paris_table)
                  (Fake.serve 500 Fake.paris_body) "http://fake/geocode?q=Paris"
                  0%nat [Fake.blank] 200)
           {| Method := "GET"; URL := "http://fake/geocode?q=Paris" |}
           {| StatusCode := 500; Body := Some (Fake.paris_body, None) |}
           Fake.paris_body eq_refl eq_refl eq_refl).
Defined.

(** A 500 answer whose body has the provider's shape fills the result as a
    200 answer does. *)
Example Geocode_internal_server_error :
  option_map outcome
    (run (Fake.sharing Fake.paris_table) (Fake.serve 500 Fake.paris_body)
       (Geocode (Fake.sharing Fake.paris_table) (Fake.g Fake.builder) "Paris")
       [Args; Fetch; Read; Deliver] (init [Fake.blank]))
  = Some (Some (Fake.Paris, None)).
Proof. reflexivity. Qed.

(** * Further properties of the package *)

(** ** Helper lemmas *)

Lemma response_undecoded {Store Obj : Type} (impl : ResponseParser Store Obj)
  (net : Net) (url : string) (obj : Obj) (st : Store) :
  undecoded net url -> response impl net url obj st = Some st.
Proof.
  unfold undecoded, response.
  intros [(e & ->) | [(req & e & -> & ->) | [(req & resp & data & e & -> & -> & ->)
                     | (req & resp & data & -> & -> & -> & Hbad)]]]; try reflexivity.
  unfold Unmarshal. now rewrite Hbad.
Qed.

Lemma response_never {Store Obj : Type} (impl : ResponseParser Store Obj)
  (net : Net) (url : string) (obj : Obj) (st : Store) :
  response impl net url obj st = None <-> never_answers net url.
Proof.
  unfold never_answers, response. split.
  - destruct (NewRequest net "GET" url) as [req|e]; [|discriminate].
    intros H. exists req. split; [reflexivity|].
    destruct (Do net req) as [[resp|e]|]; [|discriminate|now left].
    right. exists resp. split; [reflexivity|].
    destruct (ReadAll resp) as [[data [e|]]|]; try discriminate. reflexivity.
  - intros (req & -> & [-> | (resp & -> & ->)]); reflexivity.
Qed.

(** Without an answer the goroutine's send never happens. *)
Lemma no_answer_no_deliver {Store Obj T : Type} (impl : ResponseParser Store Obj)
  (net : Net) (c : call Store Obj T) (st0 : Store) (ls : list label)
  (s : config Store Obj T) :
  fetched impl net c st0 = None ->
  run impl net c ls (init st0) = Some s -> ~ In Deliver ls.
Proof.
  intros Hf Hrun Hin.
  destruct (deliver_run _ _ _ _ _ _ Hrun Hin) as (v & Hv & _).
  unfold worker_value in Hv. rewrite Hf in Hv. discriminate.
Qed.

(** After the goroutine's send, only the clock moves. *)
Lemma step_quiet {Store Obj T : Type} (impl : ResponseParser Store Obj)
  (net : Net) (c : call Store Obj T) (l : label) (s s' : config Store Obj T) :
  worker s = GoExit -> returned s = true -> step impl net c l s = Some s' ->
  (exists dt, l = Tick dt)
  /\ worker s' = GoExit /\ returned s' = true
  /\ store s' = store s /\ main s' = main s.
Proof.
  unfold returned. intros Hw Hr H.
  step_cases H; try congruence; try (rewrite Heqc0 in Hr; discriminate).
  rewrite Hw. repeat split; eauto.
Qed.

Lemma run_quiet {Store Obj T : Type} (impl : ResponseParser Store Obj)
  (net : Net) (c : call Store Obj T) (ls : list label) (s s' : config Store Obj T) :
  worker s = GoExit -> returned s = true -> run impl net c ls s = Some s' ->
  Forall (fun l => exists dt, l = Tick dt) ls
  /\ worker s' = GoExit /\ store s' = store s /\ main s' = main s.
Proof.
  revert s. induction ls as [|l ls IH]; intros s Hw Hr Hrun; simpl in Hrun.
  - injection Hrun as <-. repeat split; auto.
  - destruct (step impl net c l s) as [s1|] eqn:E; [|discriminate].
    destruct (step_quiet _ _ _ _ _ _ Hw Hr E) as (Hl & Hw1 & Hr1 & Hst & Hm).
    destruct (IH s1 Hw1 Hr1 Hrun) as (Hall & Hw' & Hst' & Hm').
    repeat split; [now constructor | assumption | congruence | congruence].
Qed.

Lemma races_in (ls : list label) :
  races ls = 1%nat -> In Deliver ls \/ In Expire ls.
Proof.
  unfold races. induction ls as [|l ls IH]; simpl; [discriminate|].
  destruct l; simpl; intros H; auto; destruct (IH H); auto.
Qed.

Lemma response_store {Store Obj : Type} (impl : ResponseParser Store Obj)
  (net : Net) (url : string) (obj : Obj) (st st' : Store) :
  response impl net url obj st = Some st' ->
  st' = st \/ exists data, st' = fst (Unmarshal impl (Trim data " []") obj st).
Proof.
  unfold response.
  destruct (NewRequest net "GET" url) as [req|e]; [|intros [= <-]; now left].
  destruct (Do net req) as [[resp|e]|]; [|intros [= <-]; now left|discriminate].
  destruct (ReadAll resp) as [[data [e|]]|]; [intros [= <-]; now left| |discriminate].
  intros [= <-]. right. now exists data.
Qed.

(** ** X1: the reverse direction *)

(** X1: [ReverseGeocode] returns the address the facade's own parser
    exposes after the decode: with no error when it is not empty, with
    [NoResultError] when it is empty; it can do so, does so whenever it
    takes the goroutine's value, and returns nothing else but the
    timeout. *)
Theorem ReverseGeocode_returns_facade_address
  {Store Obj : Type} (impl : ResponseParser Store Obj) (net : Net)
  (g : Geocoder Obj) (lat lng : float) (st0 st1 st2 : Store) (obj : Obj) :
  ResponseObject impl (g_ResponseParser g) st0 = (obj, st1) ->
  response impl net (ReverseGeocodeUrl (g_EndpointBuilder g) (mkLocation lat lng)) obj st1
  = Some st2 ->
  let a := Address_of impl (g_ResponseParser g) st2 in
  let err := if String.eqb a EmptyString then Some NoResultError else None in
  (exists s, run impl net (ReverseGeocode impl g lat lng) [Args; Fetch; Read; Deliver]
               (init st0) = Some s
             /\ outcome s = Some (a, err))
  /\ (forall ls s, run impl net (ReverseGeocode impl g lat lng) ls (init st0) = Some s ->
                   In Deliver ls -> outcome s = Some (a, err))
  /\ (forall ls s v e,
        run impl net (ReverseGeocode impl g lat lng) ls (init st0) = Some s ->
        outcome s = Some (v, e) ->
        (v, e) = (a, err) \/ (v, e) = (EmptyString, Some TimeoutError)).
Proof.
  intros Hobj Hresp a err.
  assert (Hf : fetched impl net (ReverseGeocode impl g lat lng) st0 = Some st2).
  { unfold fetched. cbn [ReverseGeocode call_target call_url]. now rewrite Hobj. }
  assert (Hv : worker_value impl net (ReverseGeocode impl g lat lng) st0 = Some a).
  { unfold worker_value. now rewrite Hf. }
  split; [|split].
  - destruct (worker_first impl net (ReverseGeocode impl g lat lng) st0 st2 Hf)
      as (s & Hrun & Ho & _).
    exists s. split; [exact Hrun | exact Ho].
  - intros ls s Hrun Hin.
    destruct (deliver_run _ _ _ _ _ _ Hrun Hin) as (v & Hv' & Hm & _).
    rewrite Hv in Hv'. injection Hv' as <-.
    unfold outcome. now rewrite Hm.
  - intros ls s v e Hrun Ho.
    destruct (outcome_run _ _ _ _ _ _ _ _ Hrun Ho) as [(Hv' & -> & _) | (-> & -> & _)].
    + left. rewrite Hv in Hv'. now injection Hv' as <-.
    + right. reflexivity.
Qed.

(** X1 at a parser that is its own decode target: the address decoded for
    the coordinates of Paris is returned with no error. *)
Lemma ReverseGeocode_returns_facade_address_witness :
  let impl := Fake.sharing Double.cities in
  let g := Fake.g Double.atlas in
  exists s,
    run impl Double.cities_net (ReverseGeocode impl g 48.8566%float 2.3522%float)
      [Args; Fetch; Read; Deliver] (init [Fake.blank]) = Some s
    /\ outcome s = Some ("Paris, France", None).
Proof.
  intros impl g.
  exact (proj1 (ReverseGeocode_returns_facade_address impl Double.cities_net g
                  48.8566%float 2.3522%float [Fake.blank] [Fake.blank]
                  [(Fake.Paris, "Paris, France")] 0%nat eq_refl eq_refl)).
Defined.

(** ** X3: an answer that is not decoded *)

(** X3: when the request cannot be built, the transport fails, the read of
    the body fails, or the trimmed body is not well-formed, a call that
    takes the goroutine's value returns what the facade's parser exposes in
    the store [ResponseObject] left, classified as it is: for a parser that
    is its own decode target, the value of the request before, and
    [NoResultError] only if that is the zero value. *)
Theorem undecoded_answer_returns_held_value
  {Store Obj : Type} (impl : ResponseParser Store Obj) (net : Net)
  (g : Geocoder Obj) (address : string) (lat lng : float) (st0 : Store) :
  (forall obj st1 ls s,
     ResponseObject impl (g_ResponseParser g) st0 = (obj, st1) ->
     undecoded net (GeocodeUrl (g_EndpointBuilder g) (QueryEscape address)) ->
     run impl net (Geocode impl g address) ls (init st0) = Some s ->
     In Deliver ls ->
     outcome s
     = Some (Location_of impl (g_ResponseParser g) st1,
             anyError (ALocation (Location_of impl (g_ResponseParser g) st1))))
  /\ (forall obj st1 ls s,
        ResponseObject impl (g_ResponseParser g) st0 = (obj, st1) ->
        undecoded net (ReverseGeocodeUrl (g_EndpointBuilder g) (mkLocation lat lng)) ->
        run impl net (ReverseGeocode impl g lat lng) ls (init st0) = Some s ->
        In Deliver ls ->
        outcome s
        = Some (Address_of impl (g_ResponseParser g) st1,
                anyError (AString (Address_of impl (g_ResponseParser g) st1)))).
Proof.
  assert (Hgen : forall (T : Type) (c : call Store Obj T) obj st1 ls s,
             call_target c st0 = (obj, st1) ->
             undecoded net (call_url c) ->
             run impl net c ls (init st0) = Some s -> In Deliver ls ->
             outcome s = Some (call_read c st1, anyError (call_any c (call_read c st1)))).
  { intros T c obj st1 ls s Ht Hu Hrun Hin.
    destruct (deliver_run _ _ _ _ _ _ Hrun Hin) as (v & Hv & Hm & _).
    unfold worker_value, fetched in Hv. rewrite Ht in Hv.
    rewrite (response_undecoded impl net (call_url c) obj st1 Hu) in Hv.
    injection Hv as <-. unfold outcome. now rewrite Hm. }
  split; intros obj st1 ls s Hobj Hu Hrun Hin.
  - exact (Hgen _ (Geocode impl g address) obj st1 ls s Hobj Hu Hrun Hin).
  - exact (Hgen _ (ReverseGeocode impl g lat lng) obj st1 ls s Hobj Hu Hrun Hin).
Qed.

(** X3 at a refused connection after a request that filled the parser: the
    Location of the request before comes back, with no error. *)
Lemma undecoded_answer_returns_held_value_witness :
  let impl := Fake.sharing Fake.paris_table in
  let c := Geocode impl (Fake.g Fake.builder) "Lyon" in
  let st := [(Fake.Paris, "Paris, France")] in
  let s := mkConfig st GoExit (Returned Fake.Paris None) 0 in
  run impl Fake.refuse c [Args; Fetch; Read; Deliver] (init st) = Some s
  /\ outcome s = Some (Fake.Paris, None).
Proof.
  intros impl c st s. split; [reflexivity|].
  refine (proj1 (undecoded_answer_returns_held_value impl Fake.refuse
                   (Fake.g Fake.builder) "Lyon" 0%float 0%float st)
            0%nat st [Args; Fetch; Read; Deliver] s eq_refl _ eq_refl _).
  - right. left.
    exists {| Method := "GET"; URL := "http://fake/geocode?q=Lyon" |}.
    exists (LibError "connection refused"). split; reflexivity.
  - right. right. right. left. reflexivity.
Defined.

(** ** X4, X5: which branch returns *)

(** X4: for [Geocode] and for [ReverseGeocode], when the request is never
    answered (the transport does not return, or the body never ends) the
    goroutine stays inside [response], its send never happens, and every
    return is the zero value with [TimeoutError], not before the timeout
    has elapsed; when the request is answered, in whatever way, the call
    can return the goroutine's value at once, with an error that is not
    [TimeoutError]. *)
Theorem answer_decides_branch
  {Store Obj : Type} (impl : ResponseParser Store Obj) (net : Net)
  (g : Geocoder Obj) (address : string) (lat lng : float) (st0 : Store) :
  answer_law impl net (Geocode impl g address) st0
  /\ answer_law impl net (ReverseGeocode impl g lat lng) st0.
Proof.
  assert (Hlaw : forall (T : Type) (c : call Store Obj T), answer_law impl net c st0).
  { intros T c.
      unfold answer_law.
      assert (Hf : fetched impl net c st0 = None <-> never_answers net (call_url c)).
      { unfold fetched. destruct (call_target c st0) as [obj st1]. apply response_never. }
      split.
      - intros Hnever ls s Hrun. apply Hf in Hnever.
        pose proof (no_answer_no_deliver _ _ _ _ _ _ Hnever Hrun) as Hnd.
        destruct (inv_run _ _ _ _ _ _ Hrun) as [Hw _]. unfold worker_inv in Hw.
        assert (Hphase : worker s <> GoReturned /\ (forall v, worker s <> GoSending v)
                         /\ worker s <> GoExit).
        { rewrite Hnever in Hw.
          destruct (worker s) as [|url o| |v|]; repeat split; try discriminate;
            try (intros v'; discriminate); try (destruct Hw; discriminate). }
        split; [exact Hnd|]. destruct Hphase as (H1 & H2 & H3).
        repeat split; try assumption.
        + destruct (outcome_run _ _ _ _ _ _ _ _ Hrun H) as [(_ & _ & Hx) | (-> & -> & _)];
            [contradiction | reflexivity].
        + destruct (outcome_run _ _ _ _ _ _ _ _ Hrun H) as [(_ & _ & Hx) | (_ & _ & _ & Ht)];
            [contradiction | exact Ht].
      - intros Hans. destruct (fetched impl net c st0) as [st2|] eqn:E.
        + destruct (worker_first impl net c st0 st2 E) as (s & Hrun & Ho & _).
          exists s. do 2 eexists. split; [exact Hrun|]. split; [exact Ho|]. split.
          * destruct (anyError_values (call_any c (call_read c st2))) as [H|H];
              rewrite H; discriminate.
          * pose proof Hrun as Hrun'. unfold init in Hrun'.
            revert Hrun'. run_step. destruct (call_target c st0) as [obj st1].
            run_step. destruct (response impl net (call_url c) obj st1); [|discriminate].
            run_step. run_step. now intros [= <-].
        + exfalso. apply Hans. now apply Hf. }
  split; apply Hlaw.
Qed.

(** X4 at a body that never ends: the goroutine is still inside
    [response] when the caller has its timeout. *)
Lemma answer_decides_branch_witness :
  let impl := Fake.sharing Fake.paris_table in
  let c := Geocode impl (Fake.g Fake.builder) "Paris" in
  let s := mkConfig [Fake.blank] (GoCalling "http://fake/geocode?q=Paris" 0%nat)
             (Returned zeroLocation (Some TimeoutError)) (timeoutInSeconds + 5) in
  run impl Double.endless c [Args; Tick timeoutInSeconds; Tick 5; Expire] (init [Fake.blank])
  = Some s
  /\ ~ In Deliver [Args; Tick timeoutInSeconds; Tick 5; Expire]
  /\ worker s <> GoExit.
Proof.
  intros impl c s. split; [reflexivity|].
  assert (Hnever : never_answers Double.endless (call_url c)).
  { exists {| Method := "GET"; URL := "http://fake/geocode?q=Paris" |}.
    split; [reflexivity|]. right.
    exists {| StatusCode := 200; Body := None |}. split; reflexivity. }
  destruct (proj1 (proj1 (answer_decides_branch impl Double.endless (Fake.g Fake.builder)
                            "Paris" 0%float 0%float [Fake.blank]))
              Hnever [Args; Tick timeoutInSeconds; Tick 5; Expire] s eq_refl)
    as (Hd & _ & _ & Hx & _).
  split; [exact Hd | exact Hx].
Defined.

(** X5: a call of [Geocode] or [ReverseGeocode] that has returned before
    the eight seconds have elapsed has returned the goroutine's value: the
    select took the channel's case and not the timer's, the goroutine is
    over, and the error is nil or [NoResultError]. *)
Theorem early_return_is_the_workers
  {Store Obj : Type} (impl : ResponseParser Store Obj) (net : Net)
  (g : Geocoder Obj) (address : string) (lat lng : float) (st0 : Store) :
  early_law impl net (Geocode impl g address) st0
  /\ early_law impl net (ReverseGeocode impl g lat lng) st0.
Proof.
  assert (Hlaw : forall (T : Type) (c : call Store Obj T), early_law impl net c st0).
  { intros T c.
      intros ls s v e Hrun Ho Hearly.
      destruct (outcome_run _ _ _ _ _ _ _ _ Hrun Ho) as [(Hv & He & Hx) | (_ & _ & _ & Ht)];
        [|lia].
      assert (Hne : ~ In Expire ls).
      { intros Hin. destruct (expire_run _ _ _ _ _ _ Hrun Hin) as (_ & _ & Ht). lia. }
      assert (Hd : In Deliver ls).
      { pose proof (races_run _ _ _ _ _ _ Hrun) as Hr.
        unfold returned in Hr. unfold outcome in Ho.
        destruct (main s); [discriminate|]. simpl in Hr.
        destruct (races_in ls) as [H|H]; [lia | exact H | contradiction]. }
      repeat split; try assumption.
      rewrite He. apply anyError_values. }
  split; apply Hlaw.
Qed.

(** X5 at an answer that comes after three seconds. *)
Lemma early_return_is_the_workers_witness :
  let impl := Fake.sharing Fake.paris_table in
  let net := Fake.serve 200 Fake.paris_body in
  let c := Geocode impl (Fake.g Fake.builder) "Paris" in
  let ls := [Args; Tick (3 * Second); Fetch; Read; Deliver] in
  let s := mkConfig [(Fake.Paris, "Paris, France")] GoExit (Returned Fake.Paris None)
             (3 * Second) in
  run impl net c ls (init [Fake.blank]) = Some s
  /\ In Deliver ls /\ ~ In Expire ls.
Proof.
  intros impl net c ls s. split; [reflexivity|].
  destruct (proj1 (early_return_is_the_workers impl net (Fake.g Fake.builder) "Paris"
                     0%float 0%float [Fake.blank])
              ls s Fake.Paris None eq_refl eq_refl eq_refl)
    as (Hd & He & _).
  split; [exact Hd | exact He].
Defined.

(** ** X6, X7: what a call does to the store *)

(** X6: once [Geocode] or [ReverseGeocode] has returned the goroutine's
    value the call is over: nothing of it can run but the clock, and the
    store, the goroutine and the result stay as they are. *)
Theorem delivered_call_is_over
  {Store Obj : Type} (impl : ResponseParser Store Obj) (net : Net)
  (g : Geocoder Obj) (address : string) (lat lng : float) (st0 : Store) :
  quiet_law impl net (Geocode impl g address) st0
  /\ quiet_law impl net (ReverseGeocode impl g lat lng) st0.
Proof.
  assert (Hlaw : forall (T : Type) (c : call Store Obj T), quiet_law impl net c st0).
  { intros T c.
      intros ls s Hrun Hin ls' s' Hrun'.
      destruct (deliver_run _ _ _ _ _ _ Hrun Hin) as (v & _ & Hm & Hx).
      assert (Hr : returned s = true) by (unfold returned; now rewrite Hm).
      destruct (run_quiet _ _ _ _ _ _ Hx Hr Hrun') as (Hall & Hw & Hst & Hm').
      repeat split; try assumption. unfold outcome. now rewrite Hm'. }
  split; apply Hlaw.
Qed.

(** X6 at a call that has returned Paris: later, time has passed and
    nothing else. *)
Lemma delivered_call_is_over_witness :
  let impl := Fake.sharing Fake.paris_table in
  let net := Fake.serve 200 Fake.paris_body in
  let c := Geocode impl (Fake.g Fake.builder) "Paris" in
  let s := mkConfig [(Fake.Paris, "Paris, France")] GoExit (Returned Fake.Paris None) 0 in
  let s' := mkConfig [(Fake.Paris, "Paris, France")] GoExit (Returned Fake.Paris None)
              (9 * Second) in
  run impl net c [Args; Fetch; Read; Deliver] (init [Fake.blank]) = Some s
  /\ run impl net c [Tick (9 * Second)] s = Some s'
  /\ store s' = store s /\ outcome s' = outcome s.
Proof.
  intros impl net c s s'. split; [reflexivity|]. split; [reflexivity|].
  destruct (proj1 (delivered_call_is_over impl net (Fake.g Fake.builder) "Paris"
                     0%float 0%float [Fake.blank])
              [Args; Fetch; Read; Deliver] s eq_refl
              (or_intror (or_intror (or_intror (or_introl eq_refl))))
              [Tick (9 * Second)] s' eq_refl)
    as (_ & Hst & _ & Ho).
  split; [exact Hst | exact Ho].
Defined.

(** X7: a call of [Geocode] or [ReverseGeocode] writes the store in two
    of its steps only, the evaluation of [g.ResponseObject()] and the call
    of [response], whose write is that of [json.Unmarshal] and is taken
    here as one write, made by the time [response] returns. The read of
    the value, the send, the two select cases and the clock never change
    the store; before the arguments are evaluated it is the one the call
    started with; once [response] has returned it is the one
    [ResponseObject] left or the one [json.Unmarshal] left from it, and it
    stays so for the rest of the call. *)
Theorem call_writes_through_decode_only
  {Store Obj : Type} (impl : ResponseParser Store Obj) (net : Net)
  (g : Geocoder Obj) (address : string) (lat lng : float) (st0 : Store) :
  footprint_law impl net (Geocode impl g address) st0
  /\ footprint_law impl net (ReverseGeocode impl g lat lng) st0.
Proof.
  assert (Hlaw : forall (T : Type) (c : call Store Obj T), footprint_law impl net c st0).
  { intros T c. split; [|split].
    - intros ls s Hrun Hw.
      destruct (inv_run _ _ _ _ _ _ Hrun) as [Hinv _].
      unfold worker_inv in Hinv. now rewrite Hw in Hinv.
    - intros ls s l s' _ Hstep Hne.
      destruct l; auto; exfalso; apply Hne; step_cases Hstep; reflexivity.
    - intros obj st1 ls s Ht Hrun Hphase. split.
      + destruct (inv_run _ _ _ _ _ _ Hrun) as [Hw _].
        unfold worker_inv, fetched in Hw. rewrite Ht in Hw.
        destruct (worker s) as [|url o| |v|]; cbn [phase] in Hphase.
        * lia.
        * lia.
        * now apply (response_store impl net (call_url c)).
        * destruct Hw as [Hw _]. now apply (response_store impl net (call_url c)).
        * now apply (response_store impl net (call_url c)).
      + intros ls' s' Hrun'.
        apply (run_invariant impl net c
                 (fun x => store x = store s /\ (2 <= phase (worker x))%nat))
          with (ls := ls') (s := s); [|now split|exact Hrun'].
        intros l a b [Hst Hph] Hstep.
        step_cases Hstep; rewrite ?Heqg in Hph; cbn [phase] in *;
          try lia; (split; [assumption | lia]). }
  split; apply Hlaw.
Qed.

(** X7 at a parser that allocates its decode target: when [response] has
    returned the new object holds the decoded value, and the read, the
    send and the select leave the store as it is. *)
Lemma call_writes_through_decode_only_witness :
  let impl := Fake.allocating Fake.paris_table in
  let net := Fake.serve 200 Fake.paris_body in
  let c := Geocode impl (Fake.g Fake.builder) "Paris" in
  let st2 := [Fake.blank; (Fake.Paris, "Paris, France")] in
  let s := mkConfig st2 GoReturned Selecting 0 in
  let s' := mkConfig st2 GoExit (Returned zeroLocation (Some NoResultError)) 2 in
  run impl net c [Args; Fetch] (init [Fake.blank]) = Some s
  /\ run impl net c [Read; Tick 2; Deliver] s = Some s'
  /\ store s' = store s.
Proof.
  intros impl net c st2 s s'. split; [reflexivity|]. split; [reflexivity|].
  refine (proj2 (proj2 (proj2 (proj1 (call_writes_through_decode_only impl net
            (Fake.g Fake.builder) "Paris" 0%float 0%float [Fake.blank])))
            1%nat [Fake.blank; Fake.blank] [Args; Fetch] s eq_refl eq_refl _)
            [Read; Tick 2; Deliver] s' eq_refl).
  cbn. lia.
Defined.

(** ** X8, X9: what reaches the decoder *)

Lemma all_in_app (cutset a b : string) :
  all_in cutset (a ++ b) = all_in cutset a && all_in cutset b.
Proof.
  induction a as [|c a IH]; [reflexivity|].
  cbn [append all_in]. rewrite IH. now rewrite andb_assoc.
Qed.

Lemma Trim_all (cutset s : string) :
  Trim s cutset = EmptyString <-> all_in cutset s = true.
Proof.
  split.
  - intros Ht. destruct (Trim_split cutset s) as (pre & post & Hs & Hpre & Hpost).
    rewrite Ht in Hs. cbn [append] in Hs. rewrite Hs, all_in_app.
    now rewrite Hpre, Hpost.
  - intros Hall. rewrite Trim_eq. now rewrite trimRightASCII_all.
Qed.

(** X8: a body made of spaces and square brackets only (the empty body,
    the empty array, nested empty arrays), and no other body, is trimmed
    to the empty text; [json.Unmarshal] returns a syntax error for it,
    which is dropped, and [response] leaves the store as it was. *)
Theorem bracket_only_body_decodes_nothing
  {Store Obj : Type} (impl : ResponseParser Store Obj) (net : Net)
  (url : string) (obj : Obj) (st : Store) (body : string) :
  (Trim body " []" = EmptyString <-> all_in " []" body = true)
  /\ (all_in " []" body = true ->
      Unmarshal impl (Trim body " []") obj st = (st, Some (LibError "json: syntax error"))
      /\ forall req resp,
           NewRequest net "GET" url = Ok req -> Do net req = Some (Ok resp) ->
           ReadAll resp = Some (body, None) ->
           response impl net url obj st = Some st).
Proof.
  split; [apply Trim_all|].
  intros Hall. apply Trim_all in Hall.
  assert (Hu : Unmarshal impl (Trim body " []") obj st
               = (st, Some (LibError "json: syntax error")))
    by (now rewrite Hall).
  split; [exact Hu|].
  intros req resp Hreq Hdo Hread. unfold response.
  now rewrite Hreq, Hdo, Hread, Hu.
Qed.

(** X8 at the answer of a provider that found nothing, an empty array: a
    parser that held Paris still holds it. *)
Lemma bracket_only_body_decodes_nothing_witness :
  let impl := Fake.sharing Fake.paris_table in
  let st := [(Fake.Paris, "Paris, France")] in
  response impl (Fake.serve 200 "[ ]") "http://fake/geocode?q=Atlantis" 0%nat st = Some st.
Proof.
  intros impl st.
  exact (proj2 (proj2 (bracket_only_body_decodes_nothing impl (Fake.serve 200 "[ ]")
                         "http://fake/geocode?q=Atlantis" 0%nat st "[ ]") eq_refl)
           {| Method := "GET"; URL := "http://fake/geocode?q=Atlantis" |}
           {| StatusCode := 200; Body := Some ("[ ]", None) |}
           eq_refl eq_refl eq_refl).
Defined.

(** X9: when the body is a well-formed JSON document that starts and ends
    with bytes other than a space or a square bracket (an object, from its
    opening to its closing brace), alone or between runs of spaces and
    square brackets, [response] hands the decoding of the provider's type
    exactly that document, and the store is the one it leaves. *)
Theorem wrapped_document_reaches_decoder
  {Store Obj : Type} (impl : ResponseParser Store Obj) (net : Net)
  (url : string) (obj : Obj) (st : Store)
  (req : Request) (resp : Response) (pre P post : string) (a b : ascii) :
  NewRequest net "GET" url = Ok req -> Do net req = Some (Ok resp) ->
  ReadAll resp = Some (pre ++ P ++ post, None) ->
  all_in " []" pre = true -> all_in " []" post = true ->
  first_byte P = Some a -> last_byte P = Some b ->
  contains " []" a = false -> contains " []" b = false ->
  json.checkValid P = true ->
  Trim (pre ++ P ++ post) " []" = P
  /\ response impl net url obj st = Some (fst (d_unmarshal impl P obj st)).
Proof.
  intros Hreq Hdo Hread Hpre Hpost Ha Hb Hca Hcb Hvalid.
  assert (Ht : Trim (pre ++ P ++ post) " []" = P).
  { rewrite Trim_runs by assumption. now apply (Trim_id " []" P a b). }
  split; [exact Ht|].
  unfold response. rewrite Hreq, Hdo, Hread, Ht.
  unfold Unmarshal. now rewrite Hvalid.
Qed.

(** X9 at the object of Paris between two brackets and spaces. *)
Lemma wrapped_document_reaches_decoder_witness :
  let impl := Fake.sharing Fake.paris_table in
  let body := "[ " ++ Fake.paris_body ++ " ]" in
  Trim body " []" = Fake.paris_body
  /\ response impl (Fake.serve 200 body) "http://fake/geocode?q=Paris" 0%nat [Fake.blank]
     = Some (fst (d_unmarshal impl Fake.paris_body 0%nat [Fake.blank])).
Proof.
  intros impl body.
  exact (wrapped_document_reaches_decoder impl (Fake.serve 200 body)
           "http://fake/geocode?q=Paris" 0%nat [Fake.blank]
           {| Method := "GET"; URL := "http://fake/geocode?q=Paris" |}
           {| StatusCode := 200; Body := Some (body, None) |}
           "[ " Fake.paris_body " ]" "{" "}"
           eq_refl eq_refl eq_refl eq_refl eq_refl eq_refl eq_refl eq_refl eq_refl
           eq_refl).
Defined.

(** ** X10, X11: the escaped address *)

Lemma hexdigit_spec (n : nat) :
  (n < 16)%nat -> isUpperHex (hexdigit n) = true /\ unhex (hexdigit n) = n.
Proof.
  intros H. do 16 (destruct n as [|n]; [split; reflexivity|]). lia.
Qed.

Lemma byte_high_low (c : ascii) :
  (nat_of_ascii c / 16 < 16)%nat /\ (nat_of_ascii c mod 16 < 16)%nat
  /\ ascii_of_nat (16 * (nat_of_ascii c / 16) + nat_of_ascii c mod 16) = c.
Proof.
  pose proof (nat_ascii_bounded c) as Hb.
  split; [apply Nat.Div0.div_lt_upper_bound; lia|].
  split; [apply Nat.mod_upper_bound; lia|].
  rewrite <- Nat.div_mod_eq. apply ascii_nat_embedding.
Qed.

Lemma isUpperHex_unreserved (c : ascii) :
  isUpperHex c = true -> shouldEscape c = false.
Proof.
  destruct c as [[|] [|] [|] [|] [|] [|] [|] [|]]; intros H;
    solve [reflexivity | discriminate H].
Qed.

Lemma unreserved_not_special (c : ascii) :
  shouldEscape c = false ->
  Ascii.eqb c " " = false /\ Ascii.eqb c "+" = false /\ Ascii.eqb c "%" = false.
Proof.
  intros H. repeat split;
    match goal with
    | |- Ascii.eqb c ?x = false =>
        destruct (Ascii.eqb c x) eqn:E; [|reflexivity];
        apply Ascii.eqb_eq in E; subst c; discriminate H
    end.
Qed.

Lemma escape_well_escaped (s : string) : well_escaped (escape s) = true.
Proof.
  induction s as [|c s IH]; [reflexivity|].
  cbn [escape]. destruct (Ascii.eqb c " ") eqn:Esp.
  - cbn [well_escaped]. now rewrite IH.
  - destruct (shouldEscape c) eqn:Ec.
    + destruct (byte_high_low c) as (Hh & Hl & _).
      destruct (hexdigit_spec _ Hh) as [H1 _], (hexdigit_spec _ Hl) as [H2 _].
      cbn [well_escaped]. change (Ascii.eqb "%" "%") with true. cbv iota.
      now rewrite H1, H2, IH.
    + destruct (unreserved_not_special c Ec) as (_ & _ & Hp).
      cbn [well_escaped]. now rewrite Hp, Ec, IH.
Qed.

Lemma unescape_escape (s : string) : unescape (escape s) = s.
Proof.
  induction s as [|c s IH]; [reflexivity|].
  cbn [escape]. destruct (Ascii.eqb c " ") eqn:Esp.
  - apply Ascii.eqb_eq in Esp. subst c. cbn [unescape].
    change (Ascii.eqb "+" "+") with true. cbv iota. now rewrite IH.
  - destruct (shouldEscape c) eqn:Ec.
    + destruct (byte_high_low c) as (Hh & Hl & Hc).
      destruct (hexdigit_spec _ Hh) as [_ H1], (hexdigit_spec _ Hl) as [_ H2].
      cbn [unescape]. change (Ascii.eqb "%" "+") with false.
      change (Ascii.eqb "%" "%") with true. cbv iota.
      now rewrite H1, H2, Hc, IH.
    + destruct (unreserved_not_special c Ec) as (_ & Hplus & Hp).
      cbn [unescape]. now rewrite Hplus, Hp, IH.
Qed.

(** The bytes of a well-escaped text. *)
Lemma well_escaped_bytes (n : nat) (s : string) (c : ascii) :
  (String.length s <= n)%nat -> well_escaped s = true ->
  In c (list_ascii_of_string s) ->
  shouldEscape c = false \/ c = "+"%char \/ c = "%"%char.
Proof.
  revert s. induction n as [|n IH]; intros s Hlen Hw Hin.
  - destruct s; [contradiction | simpl in Hlen; lia].
  - destruct s as [|x s]; [contradiction|].
    cbn [well_escaped] in Hw. cbn [list_ascii_of_string] in Hin.
    simpl in Hlen. destruct (Ascii.eqb x "%") eqn:Ex.
    + apply Ascii.eqb_eq in Ex. subst x.
      destruct s as [|h1 [|h2 s]]; try discriminate Hw.
      apply andb_true_iff in Hw as [Hw Hrest]. apply andb_true_iff in Hw as [H1 H2].
      cbn [list_ascii_of_string] in Hin. simpl in Hlen.
      destruct Hin as [<- | [<- | [<- | Hin]]].
      * right; right; reflexivity.
      * left. now apply isUpperHex_unreserved.
      * left. now apply isUpperHex_unreserved.
      * apply (IH s); [lia | assumption | assumption].
    + apply andb_true_iff in Hw as [Hx Hrest].
      destruct Hin as [<- | Hin].
      * apply orb_true_iff in Hx as [Hx | Hx].
        -- left. now apply negb_true_iff in Hx.
        -- right; left. now apply Ascii.eqb_eq in Hx.
      * apply (IH s); [lia | assumption | assumption].
Qed.

(** X10: the text [Geocode] hands the Endpoint Builder is well escaped
    whatever the address: its bytes are letters, digits, [-], [_], [.],
    [~], [+] and [%], every [%] stands before two upper-case hexadecimal
    digits, and no byte is a space or one of [&], [=], [?], [#], [/]. *)
Theorem escaped_address_is_query_safe
  {Store Obj : Type} (impl : ResponseParser Store Obj)
  (g : Geocoder Obj) (address : string) :
  call_url (Geocode impl g address)
  = GeocodeUrl (g_EndpointBuilder g) (QueryEscape address)
  /\ well_escaped (QueryEscape address) = true
  /\ (forall c, In c (list_ascii_of_string (QueryEscape address)) ->
                shouldEscape c = false \/ c = "+"%char \/ c = "%"%char)
  /\ (forall c, In c (list_ascii_of_string (QueryEscape address)) ->
                contains " &=?#/" c = false).
Proof.
  assert (Hbytes : forall c, In c (list_ascii_of_string (QueryEscape address)) ->
                             shouldEscape c = false \/ c = "+"%char \/ c = "%"%char).
  { intros c. apply (well_escaped_bytes (String.length (QueryEscape address)));
      [lia | apply escape_well_escaped]. }
  split; [reflexivity|]. split; [apply escape_well_escaped|]. split; [exact Hbytes|].
  intros c Hin. destruct (Hbytes c Hin) as [H | [-> | ->]]; try reflexivity.
  destruct (contains " &=?#/" c) eqn:E; [|reflexivity].
  cbn [contains] in E. rewrite orb_false_r in E.
  repeat (apply orb_true_iff in E as [E | E];
          [apply Ascii.eqb_eq in E; subst c; discriminate H|]).
  apply Ascii.eqb_eq in E. subst c. discriminate H.
Qed.

(** X10 at an address with a space, an ampersand and a slash. *)
Lemma escaped_address_is_query_safe_witness :
  QueryEscape "Rock & Roll 1/2" = "Rock+%26+Roll+1%2F2"
  /\ contains " &=?#/" "%" = false.
Proof.
  split; [reflexivity|].
  refine (proj2 (proj2 (proj2 (escaped_address_is_query_safe
            (Fake.sharing []) (Fake.g Fake.builder) "Rock & Roll 1/2"))) "%"%char _).
  vm_compute. tauto.
Defined.

(** X11: the escaping [Geocode] applies loses nothing: reading [+] as a
    space and [%XX] as a byte gives the address back, so two different
    addresses are never handed to the Endpoint Builder as the same text. *)
Theorem escaped_address_is_faithful (address : string) :
  unescape (QueryEscape address) = address
  /\ (forall other, QueryEscape other = QueryEscape address -> other = address).
Proof.
  split; [apply unescape_escape|].
  intros other H. rewrite <- (unescape_escape other), <- (unescape_escape address).
  unfold QueryEscape in H. now rewrite H.
Qed.

(** X11 at an address with bytes of every kind. *)
Lemma escaped_address_is_faithful_witness :
  unescape "a%2Bb+%3D+100%25" = "a+b = 100%".
Proof.
  exact (proj1 (escaped_address_is_faithful "a+b = 100%")).
Defined.

(** ** X12: two calls at once *)

(** Taking the first step of a schedule of two calls. *)
Ltac joint_step :=
  cbn [run2 step2 is_tick];
  unfold step at 1;
  cbn [worker store main clock shared worker1 main1 worker2 main2 clock2
       Geocode call_target call_url call_read call_any].

(** X12: two calls of [Geocode] on one Geocoder, for any two addresses,
    can interleave so that both goroutines decode before either reads:
    then both callers are returned the same Location, the one the facade's
    parser exposes after the second decode, each with its classification. *)
Theorem concurrent_calls_read_one_parser
  {Store Obj : Type} (impl : ResponseParser Store Obj) (net : Net)
  (g : Geocoder Obj) (address1 address2 : string)
  (st0 sa sb sc sd : Store) (obj1 obj2 : Obj) :
  ResponseObject impl (g_ResponseParser g) st0 = (obj1, sa) ->
  ResponseObject impl (g_ResponseParser g) sa = (obj2, sb) ->
  response impl net (GeocodeUrl (g_EndpointBuilder g) (QueryEscape address1)) obj1 sb
  = Some sc ->
  response impl net (GeocodeUrl (g_EndpointBuilder g) (QueryEscape address2)) obj2 sc
  = Some sd ->
  let L := Location_of impl (g_ResponseParser g) sd in
  exists s,
    run2 impl net (Geocode impl g address1) (Geocode impl g address2)
      [Call1 Args; Call2 Args; Call1 Fetch; Call2 Fetch;
       Call1 Read; Call1 Deliver; Call2 Read; Call2 Deliver] (init2 st0) = Some s
    /\ outcome1 s = Some (L, anyError (ALocation L))
    /\ outcome2 s = Some (L, anyError (ALocation L))
    /\ shared s = sd.
Proof.
  intros H1 H2 H3 H4 L. unfold init2.
  joint_step. rewrite H1. joint_step. rewrite H2.
  joint_step. rewrite H3. joint_step. rewrite H4.
  do 4 joint_step.
  eexists. repeat split.
Qed.

(** X12 at a parser that is its own decode target and the addresses Paris
    and Lyon: the caller that asked for Paris is returned Lyon. *)
Lemma concurrent_calls_read_one_parser_witness :
  let impl := Fake.sharing Double.cities in
  let g := Fake.g Fake.builder in
  exists s,
    run2 impl Double.cities_net (Geocode impl g "Paris") (Geocode impl g "Lyon")
      [Call1 Args; Call2 Args; Call1 Fetch; Call2 Fetch;
       Call1 Read; Call1 Deliver; Call2 Read; Call2 Deliver] (init2 [Fake.blank]) = Some s
    /\ outcome1 s = Some (Double.Lyon, None)
    /\ outcome2 s = Some (Double.Lyon, None)
    /\ shared s = [(Double.Lyon, "Lyon, France")].
Proof.
  intros impl g.
  exact (concurrent_calls_read_one_parser impl Double.cities_net g "Paris" "Lyon"
           [Fake.blank] [Fake.blank] [Fake.blank] [(Fake.Paris, "Paris, France")]
           [(Double.Lyon, "Lyon, France")] 0%nat 0%nat
           eq_refl eq_refl eq_refl eq_refl).
Defined.

(** ** X13: trimming twice *)

Lemma ends_of_nonempty (s : string) :
  s <> EmptyString -> exists a b, first_byte s = Some a /\ last_byte s = Some b.
Proof.
  destruct s as [|a s]; [contradiction|]. intros _. exists a.
  revert a. induction s as [|x s IH]; intros a.
  - exists a. now split.
  - destruct (IH x) as (b & _ & Hb). exists b. split; [reflexivity|].
    now rewrite last_byte_cons.
Qed.

Lemma Trim_idempotent (cutset s : string) :
  Trim (Trim s cutset) cutset = Trim s cutset.
Proof.
  destruct (Trim s cutset) as [|x t] eqn:E; [reflexivity|].
  destruct (ends_of_nonempty (String x t)) as (a & b & Ha & Hb); [discriminate|].
  apply (Trim_id cutset _ a b Ha Hb).
  - apply (Trim_first cutset s). now rewrite E.
  - apply (Trim_last cutset s). now rewrite E.
Qed.

(** X13: the trim of [response] is idempotent and never lengthens: a body
    that was trimmed before it arrives is decoded as the body itself, for
    every network. *)
Theorem pretrimmed_body_decodes_alike
  {Store Obj : Type} (impl : ResponseParser Store Obj) (net : Net)
  (url : string) (obj : Obj) (st : Store) :
  response impl (map_responses trim_body net) url obj st = response impl net url obj st
  /\ (forall body, Trim (Trim body " []") " []" = Trim body " []")
  /\ (forall body, (String.length (Trim body " []") <= String.length body)%nat).
Proof.
  split; [|split].
  - unfold response. cbn [map_responses NewRequest Do].
    destruct (NewRequest net "GET" url) as [req|e]; [|reflexivity].
    destruct (Do net req) as [[resp|e]|]; try reflexivity.
    unfold ReadAll, trim_body. cbn [Body].
    destruct (Body resp) as [[data [e|]]|]; try reflexivity.
    now rewrite Trim_idempotent.
  - intros body. apply Trim_idempotent.
  - intros body. destruct (Trim_split " []" body) as (pre & post & Hs & _).
    rewrite Hs at 2. rewrite !length_app. lia.
Qed.

(** X13 at a body with brackets inside: they stay, at the first trim and
    at the second. *)
Lemma pretrimmed_body_decodes_alike_witness :
  Trim (Trim "[ [1] , [2] ]" " []") " []" = Trim "[ [1] , [2] ]" " []"
  /\ Trim "[ [1] , [2] ]" " []" = "1] , [2".
Proof.
  split; [|reflexivity].
  exact (proj1 (proj2 (pretrimmed_body_decodes_alike (Fake.sharing []) Fake.hang
                         EmptyString 0%nat [Fake.blank])) "[ [1] , [2] ]").
Defined.

(** ** X14: each step once *)

Lemma times_cons (k l : label) (ls : list label) :
  times k (l :: ls) = ((if label_eqb k l then 1 else 0) + times k ls)%nat.
Proof. unfold times. cbn [filter]. now destruct (label_eqb k l). Qed.

Lemma step_phase {Store Obj T : Type} (impl : ResponseParser Store Obj)
  (net : Net) (c : call Store Obj T) (l : label) (s s' : config Store Obj T) :
  step impl net c l s = Some s' ->
  forall k n,
    (k, n) = (Args, 1%nat) \/ (k, n) = (Fetch, 2%nat) \/ (k, n) = (Read, 3%nat)
    \/ (k, n) = (Deliver, 4%nat) ->
    ((if label_eqb k l then 1 else 0) + (if (n <=? phase (worker s))%nat then 1 else 0)
     = if (n <=? phase (worker s'))%nat then 1 else 0)%nat.
Proof.
  intros H k n Hk.
  step_cases H;
    destruct Hk as [[= -> ->] | [[= -> ->] | [[= -> ->] | [= -> ->]]]];
    cbn [label_eqb]; rewrite ?Heqg; reflexivity.
Qed.

Lemma run_phase {Store Obj T : Type} (impl : ResponseParser Store Obj)
  (net : Net) (c : call Store Obj T) (ls : list label) (s s' : config Store Obj T) :
  run impl net c ls s = Some s' ->
  forall k n,
    (k, n) = (Args, 1%nat) \/ (k, n) = (Fetch, 2%nat) \/ (k, n) = (Read, 3%nat)
    \/ (k, n) = (Deliver, 4%nat) ->
    (times k ls + (if (n <=? phase (worker s))%nat then 1 else 0)
     = if (n <=? phase (worker s'))%nat then 1 else 0)%nat.
Proof.
  revert s. induction ls as [|l ls IH]; intros s Hrun k n Hk.
  - injection Hrun as <-. reflexivity.
  - cbn [run] in Hrun. destruct (step impl net c l s) as [s1|] eqn:E; [|discriminate].
    rewrite times_cons, <- (IH s1 Hrun k n Hk), <- (step_phase _ _ _ _ _ _ E k n Hk). lia.
Qed.

Lemma races_times (ls : list label) :
  races ls = (times Deliver ls + times Expire ls)%nat.
Proof.
  induction ls as [|l ls IH]; [reflexivity|].
  rewrite !times_cons. unfold races in *.
  destruct l; simpl; rewrite IH; lia.
Qed.

(** X14: in a call of [Geocode] or [ReverseGeocode] the goroutine
    evaluates its arguments (and with them [g.ResponseObject()]) once,
    [response] returns once at most, the value is read once at most and
    sent once at most, each only after the one before; nothing is tried
    again, and the caller returns by one select case. *)
Theorem call_takes_each_step_once
  {Store Obj : Type} (impl : ResponseParser Store Obj) (net : Net)
  (g : Geocoder Obj) (address : string) (lat lng : float) (st0 : Store) :
  once_law impl net (Geocode impl g address) st0
  /\ once_law impl net (ReverseGeocode impl g lat lng) st0.
Proof.
  assert (Hlaw : forall (T : Type) (c : call Store Obj T), once_law impl net c st0).
  { intros T c ls s Hrun.
    pose proof (run_phase impl net c ls _ _ Hrun) as H. cbn [init worker phase] in H.
    repeat split.
    - rewrite <- (H Args 1%nat) by auto. cbn. lia.
    - rewrite <- (H Fetch 2%nat) by auto. cbn. lia.
    - rewrite <- (H Read 3%nat) by auto. cbn. lia.
    - rewrite <- (H Deliver 4%nat) by auto 6. cbn. lia.
    - rewrite <- races_times. pose proof (races_run _ _ _ _ _ _ Hrun) as Hr.
      unfold returned at 2 in Hr. cbn in Hr. lia. }
  split; apply Hlaw.
Qed.

(** X14 at a schedule that goes through a whole call: a second [Fetch]
    has no place in it. *)
Lemma call_takes_each_step_once_witness :
  let impl := Fake.sharing Fake.paris_table in
  let net := Fake.serve 200 Fake.paris_body in
  let c := Geocode impl (Fake.g Fake.builder) "Paris" in
  let s := mkConfig [(Fake.Paris, "Paris, France")] GoExit (Returned Fake.Paris None) 0 in
  run impl net c [Args; Fetch; Read; Deliver] (init [Fake.blank]) = Some s
  /\ times Fetch [Args; Fetch; Read; Deliver] = 1%nat
  /\ run impl net c [Args; Fetch; Fetch] (init [Fake.blank]) = None.
Proof.
  intros impl net c s. split; [reflexivity|]. split; [|reflexivity].
  exact (proj1 (proj2 (proj1 (call_takes_each_step_once impl net (Fake.g Fake.builder)
                                "Paris" 0%float 0%float [Fake.blank])
                         [Args; Fetch; Read; Deliver] s eq_refl))).
Defined.
